(** * GithubToCloudStorageOperator: extraction and record filtering

    A shallow embedding of [operators/github_to_cloud_storage_operator.py]:
    endpoint resolution ([methodMapper]), pagination ([paginate_data]), the
    per-unit failure boundary ([retrieve_data]), scope fan-out ([execute]),
    hand-off to the storage hooks ([output_manager]) and the strip/retain
    rule engine ([filterMapper]).

    Python values are embedded as follows.
    - Parsed JSON (and the operator's [github_repo] argument, which is
      [None], a string or a list) is the type [json]; Python's [None] is
      [JNull].  JSON objects are dictionaries, embedded as [gmap string json].
    - Exceptions are the type [exn]; a pure function that may raise returns
      [result A].
    - Code that talks to the Github hook, logs, or uploads runs in the monad
      [M], which threads the outside world, the list of requests issued so
      far and the log, and which can raise.  The [while] loop of
      [paginate_data] takes fuel; running out of fuel is the [None] outcome
      and is never caught by [try/except]. *)

From Stdlib Require Import ZArith Ascii String.
From stdpp Require Import gmap strings list fin_maps.

Local Open Scope string_scope.

(** ** Values and exceptions *)

(** A parsed JSON document.  An integer is [JNum]; a number with a
    fraction or an exponent is [JFloat], kept as its text. *)
#[warnings="-register-all"]
Inductive json : Type :=
  | JNull
  | JBool (b : bool)
  | JNum (z : Z)
  | JFloat (text : string)
  | JStr (s : string)
  | JArr (l : list json)
  | JObj (m : gmap string json).

(** The exceptions the operator can meet. *)
Inductive exn : Type :=
  | KeyError (k : string)        (* missing dictionary key *)
  | AttributeError               (* [.keys()] on a value that is not a dict *)
  | TypeError                    (* subscripting or arithmetic on a wrong type *)
  | UnsupportedObject            (* 'Specified Github object not currently supported.' *)
  | HookError (msg : string).    (* raised by a hook: transport, HTTP status, JSON parse, upload *)

Inductive result (A : Type) : Type :=
  | Ok (a : A)
  | Raise (e : exn).
Arguments Ok {A} a.
Arguments Raise {A} e.

#[global] Instance result_ret : MRet result := fun A a => Ok a.
#[global] Instance result_bind : MBind result := fun A B f r =>
  match r with
  | Ok a => f a
  | Raise e => Raise e
  end.

(** A [for] loop whose body may raise, with the loop variable ranging over
    [xs] and the mutated object threaded through. *)
Fixpoint for_each {A S : Type} (body : A -> S -> result S) (xs : list A) (s : S)
  : result S :=
  match xs with
  | [] => Ok s
  | x :: xs' => s' ← body x s; for_each body xs' s'
  end.

(** ** filterMapper *)

Module Filter.

(** One entry of the [mapping] list of [filterMapper]. *)
Record entry : Type := Entry {
  name : string;
  filtered : string;
  retained : option (list string)
}.

Definition mapping : list entry :=
  [ Entry "commits" "author" (Some ["id"]);
    Entry "commits" "committer" (Some ["id"]);
    Entry "issues" "labels" None;
    Entry "issue_comments" "user" (Some ["id"]);
    Entry "commit_comments" "user" (Some ["id"]);
    Entry "repositories" "owner" (Some ["id"]);
    Entry "pull_requests" "assignee" (Some ["id"]);
    Entry "pull_requests" "milestone" (Some ["id"]);
    Entry "pull_requests" "head" (Some ["label"]);
    Entry "pull_requests" "base" (Some ["label"]);
    Entry "pull_requests" "user" (Some ["id"]) ].

(** ["{0}_{1}".format(entry['filtered'], retained_item)] *)
Definition hoisted_key (f item : string) : string := (f ++ "_" ++ item)%string.

(** Truth value of [entry['retained']]: [None] and the empty list are false. *)
Definition truthy (r : option (list string)) : bool :=
  match r with
  | Some (_ :: _) => true
  | _ => false
  end.

(** Body of [for retained_item in entry['retained']]: when
    [record[f]] is not [None] and has the key [item], copy that value to the
    top level.  [record[f].keys()] raises on anything but a dict. *)
Definition retain_item (f item : string) (record : gmap string json)
  : result (gmap string json) :=
  match record !! f with
  | None => Raise (KeyError f)
  | Some JNull => Ok record
  | Some (JObj sub) =>
      match sub !! item with
      | Some v => Ok (<[hoisted_key f item := v]> record)
      | None => Ok record
      end
  | Some _ => Raise AttributeError
  end.

(** [if record[f] is not None: del record[f]] *)
Definition drop_filtered (f : string) (record : gmap string json)
  : result (gmap string json) :=
  match record !! f with
  | None => Raise (KeyError f)
  | Some JNull => Ok record
  | Some _ => Ok (delete f record)
  end.

(** Body of [for entry in mapping] in [process]. *)
Definition step (github_object : string) (e : entry) (record : json) : result json :=
  if decide (name e = github_object) then
    match record with
    | JObj m =>
        if decide (is_Some (m !! filtered e)) then
          m1 ← (if truthy (retained e)
                then for_each (retain_item (filtered e)) (default [] (retained e)) m
                else Ok m);
          m2 ← drop_filtered (filtered e) m1;
          Ok (JObj m2)
        else Ok record
    | _ => Raise AttributeError
    end
  else Ok record.

Definition process (github_object : string) (record : json) (mapping : list entry)
  : result json :=
  for_each (step github_object) mapping record.

End Filter.

(** [self.filterMapper(record)], for an operator whose [github_object] is
    the first argument. *)
Definition filterMapper (github_object : string) (record : json) : result json :=
  Filter.process github_object record Filter.mapping.

(** The record of the specification's example:
    [{"sha": "abc", "author": {"id": 7, "name": "x"}, "committer": null}]. *)
Definition commit_abc_fields : gmap string json :=
  {[ "sha" := JStr "abc";
     "author" := JObj {[ "id" := JNum 7; "name" := JStr "x" ]};
     "committer" := JNull ]}.

Definition commit_abc : json := JObj commit_abc_fields.

(** ** Query parameters *)

(** A query-parameter value: the driver's own are integers, the caller's
    are integers or strings. *)
Inductive pval : Type :=
  | PInt (n : Z)
  | PStr (s : string).

Fixpoint str_repeat (s : string) (n : nat) : string :=
  match n with
  | O => ""
  | S n' => (s ++ str_repeat s n')%string
  end.

(** Python's [*] on these values: a string times a string raises. *)
Definition py_mul (a b : pval) : result pval :=
  match a, b with
  | PInt x, PInt y => Ok (PInt (x * y))
  | PInt n, PStr s | PStr s, PInt n => Ok (PStr (str_repeat s (Z.to_nat n)))
  | PStr _, PStr _ => Raise TypeError
  end.

(** Python's [+ 1]: a string plus an integer raises. *)
Definition py_succ (a : pval) : result pval :=
  match a with
  | PInt n => Ok (PInt (n + 1))
  | PStr _ => Raise TypeError
  end.

(** [d[k]] on a dictionary of parameters. *)
Definition getitem (d : gmap string pval) (k : string) : result pval :=
  match d !! k with
  | Some v => Ok v
  | None => Raise (KeyError k)
  end.

(** [final_payload = {'per_page': 100, 'page': 1}] *)
Definition initial_payload : gmap string pval :=
  {[ "per_page" := PInt 100; "page" := PInt 1 ]}.

(** [for param in self.payload: final_payload[param] = self.payload[param]] *)
Definition merge_payload (payload final_payload : gmap string pval)
  : gmap string pval :=
  map_fold (fun param v acc => <[param := v]> acc) final_payload payload.

(** [final_payload['page'] += 1] *)
Definition next_page (final_payload : gmap string pval)
  : result (gmap string pval) :=
  page ← getitem final_payload "page";
  page' ← py_succ page;
  Ok (<["page" := page']> final_payload).

(** The operand of [str] in the 'Retrieved: ' log line. *)
Definition retrieved_count (final_payload : gmap string pval) : result pval :=
  per_page ← getitem final_payload "per_page";
  page ← getitem final_payload "page";
  py_mul per_page page.

(** ** Strings *)

(** [str.lower], on the ASCII letters.  The supported object names are
    ASCII and contain no letter that a non-ASCII character lowercases to,
    so membership of [s.lower()] in the supported tuple is decided by the
    ASCII letters of [s] alone. *)
Definition lower_ascii (c : ascii) : ascii :=
  let n := nat_of_ascii c in
  if (65 <=? n)%nat && (n <=? 90)%nat then ascii_of_nat (n + 32) else c.

Fixpoint lower (s : string) : string :=
  match s with
  | EmptyString => EmptyString
  | String c s' => String (lower_ascii c) (lower s')
  end.

Definition newline : string := String (ascii_of_nat 10) EmptyString.

(** A list comprehension [[f(x) for x in xs]] whose body may raise. *)
Fixpoint comprehension {A B : Type} (f : A -> result B) (xs : list A)
  : result (list B) :=
  match xs with
  | [] => Ok []
  | x :: xs' => y ← f x; ys ← comprehension f xs'; Ok (y :: ys)
  end.

(** ** The operator *)

(** The attributes [__init__] stores on [self]. *)
Record operator : Type := Operator {
  github_conn_id : string;
  github_org : string;
  github_repo : json;
  github_object : string;
  payload : gmap string pval;
  destination : string;
  dest_conn_id : string;
  bucket : string;
  key : string
}.

(** The tuple [__init__] checks [github_object.lower()] against. *)
Definition supported : list string :=
  [ "commits"; "commit_comments"; "issue_comments"; "issues"; "members";
    "organizations"; "pull_requests"; "repositories" ].

(** What [retrieve_data] returns: the list built by [paginate_data], or the
    empty string of its [except] branch. *)
Inductive fetched : Type :=
  | Rows (l : list json)
  | EmptyStr.

(** Iterating over it ([output.extend(...)], [for record in output]). *)
Definition items (r : fetched) : list json :=
  match r with
  | Rows l => l
  | EmptyStr => []
  end.

Inductive log_entry : Type :=
  | Retrieved (count : pval)     (* 'Retrieved: ' + str(count) *)
  | Unavailable.                 (* 'Resource is unavailable.' *)

Inductive sink : Type := S3 | GCS.

(** What a storage hook is handed: the text itself ([string_data], for
    [S3Hook.load_string]) or the name of a temporary file ([filename], for
    [GoogleCloudStorageHook.upload]).  The file is the [NamedTemporaryFile]
    that [tmp.write] has just been called on; it is still open and has been
    neither flushed nor closed when its name is handed over, so
    [Filename written] records what was written to it, not what the hook
    finds in it. *)
Inductive handed : Type :=
  | StringData (text : string)
  | Filename (written : string).

Coercion StringData : string >-> handed.

(** One call to a storage hook. *)
Record upload : Type := Upload {
  up_sink : sink;
  up_conn_id : string;
  up_bucket : string;
  up_key : string;
  up_data : handed
}.

Section Operator.

(** The collaborators the operator is given. *)
Context {World : Type}.

(** The fetch capability, [GithubHook(conn_id).run(endpoint, payload).json()]:
    given a connection, a resource path and the query parameters, it
    returns a parsed JSON array or fails, and may change the world. *)
Variable hook_run :
  string -> string -> gmap string pval -> World -> result (list json) * World.

(** The storage hooks: [S3Hook(conn).load_string(...)] followed by
    [s3.connection.close()], and [GoogleCloudStorageHook(conn).upload(...)],
    which reads the file it is given the name of. *)
Variable sink_put : upload -> World -> result unit * World.

(** [json.dumps(flatten(record))], of the json and flatten_json libraries. *)
Variable dumps_flatten : json -> result string.

(** [str(v)] for a value [v] that is neither a string nor [None]. *)
Variable str_of : json -> string.

Record state : Type := State {
  world : World;
  requests : list (string * gmap string pval);   (* endpoint and query of each fetch, oldest first *)
  uploads : list upload;                         (* storage-hook calls, oldest first *)
  log : list log_entry                           (* [logging.info] lines, oldest first *)
}.

(** A computation: from a state to an outcome and a state, or to nothing
    when the fuel of a loop runs out. *)
Definition M (A : Type) : Type := state -> option (result A * state).

#[export] Instance M_ret : MRet M := fun A a s => Some (Ok a, s).
#[export] Instance M_bind : MBind M := fun A B f c s =>
  match c s with
  | Some (Ok a, s') => f a s'
  | Some (Raise e, s') => Some (Raise e, s')
  | None => None
  end.
#[export] Instance M_fmap : FMap M := fun A B f c => a ← c; mret (f a).

Definition lift {A : Type} (r : result A) : M A := fun s => Some (r, s).

Definition out_of_fuel {A : Type} : M A := fun _ => None.

(** [try: body  except: handler]; the bare [except] catches every exception. *)
Definition try_except {A : Type} (body handler : M A) : M A := fun s =>
  match body s with
  | Some (Raise _, s') => handler s'
  | r => r
  end.

Definition logging_info (e : log_entry) : M unit := fun s =>
  Some (Ok (), State (world s) (requests s) (uploads s) (log s ++ [e])%list).

(** [g.run(endpoint, final_payload).json()] where [g = GithubHook(conn_id)]. *)
Definition run (g endpoint : string) (final_payload : gmap string pval)
  : M (list json) := fun s =>
  let '(r, w) := hook_run g endpoint final_payload (world s) in
  Some (r, State w (requests s ++ [(endpoint, final_payload)])%list (uploads s) (log s)).

Definition put (u : upload) : M unit := fun s =>
  let '(r, w) := sink_put u (world s) in
  Some (r, State w (requests s) (uploads s ++ [u])%list (log s)).

(** [logging.info('Retrieved: ' + str(per_page * page))] *)
Definition log_retrieved (final_payload : gmap string pval) : M unit :=
  count ← lift (retrieved_count final_payload);
  logging_info (Retrieved count).

(** *** methodMapper *)

(** [str.format] applies [str] to its argument. *)
Definition format (v : json) : string :=
  match v with
  | JStr s => s
  | JNull => "None"
  | _ => str_of v
  end.

Definition methodMapper (self : operator) (github_object : string) (org repo : json)
  : result string :=
  let mapping : gmap string string := list_to_map
    [ ("commits", "repos/" ++ format org ++ "/" ++ format repo ++ "/commits");
      ("commit_comments", "repos/" ++ format org ++ "/" ++ format repo ++ "/comments");
      ("issue_comments", "repos/" ++ format org ++ "/" ++ format repo ++ "/issues/comments");
      ("issues", "repos/" ++ format org ++ "/" ++ format repo ++ "/issues");
      ("members", "orgs/" ++ format org ++ "/members");
      ("organizations", "user/organizations");
      ("pull_requests", "repos/" ++ format org ++ "/" ++ format repo ++ "/pulls");
      ("repositories", "orgs/" ++ github_org self ++ "/repos") ] in
  match mapping !! github_object with
  | Some endpoint => Ok endpoint
  | None => Raise (KeyError github_object)
  end.

(** *** paginate_data *)

(** The [while len(response) == 100] loop.  [output] and [response] are
    the variables of that name; the loop returns [output]. *)
Fixpoint fetch_more (fuel : nat) (g endpoint : string)
    (final_payload : gmap string pval) (response output : list json)
  : M (list json) :=
  if decide (List.length response = 100%nat) then
    match fuel with
    | O => out_of_fuel
    | S fuel' =>
        final_payload' ← lift (next_page final_payload);
        response' ← run g endpoint final_payload';
        log_retrieved final_payload';;
        fetch_more fuel' g endpoint final_payload' response' (output ++ response')%list
    end
  else mret output.

Definition paginate_data (self : operator) (fuel : nat) (g endpoint : string)
  : M (list json) :=
  let final_payload := merge_payload (payload self) initial_payload in
  response ← run g endpoint final_payload;
  let output := ([] ++ response)%list in
  log_retrieved final_payload;;
  output ← fetch_more fuel g endpoint final_payload response output;
  lift (comprehension (filterMapper (github_object self)) output).

(** *** retrieve_data *)

Definition retrieve_data (self : operator) (fuel : nat) (g : string) (repo : json)
  : M fetched :=
  try_except
    (endpoint ← lift (methodMapper self (github_object self)
                                   (JStr (github_org self)) repo);
     Rows <$> paginate_data self fuel g endpoint)
    (logging_info Unavailable;; mret EmptyStr).

(** *** execute *)

(** [self.github_repo == 'all'] *)
Definition is_all (github_repo : json) : bool :=
  match github_repo with
  | JStr r => bool_decide (r = "all")
  | _ => false
  end.

(** [repo['name']] *)
Definition repo_name (repo : json) : result json :=
  match repo with
  | JObj m =>
      match m !! "name" with
      | Some v => Ok v
      | None => Raise (KeyError "name")
      end
  | _ => Raise TypeError
  end.

(** [for repo in repos: output.extend(self.retrieve_data(g, repo=repo))] *)
Fixpoint extend_each (self : operator) (fuel : nat) (g : string)
    (repos : list json) (output : list json) : M (list json) :=
  match repos with
  | [] => mret output
  | repo :: repos' =>
      r ← retrieve_data self fuel g repo;
      extend_each self fuel g repos' (output ++ items r)%list
  end.

(** [execute] up to its last line: the value of [output] that is handed to
    [output_manager].  [g = GithubHook(self.github_conn_id)] only builds the
    hook object, whose constructor is taken not to raise; [g] stands for it
    in every request. *)
Definition gather (self : operator) (fuel : nat) : M fetched :=
  let g := github_conn_id self in
  let output : list json := [] in
  if decide (github_object self ∉ ["members"; "organizations"; "repositories"]) then
    if is_all (github_repo self) then
      endpoint ← lift (methodMapper self "repositories" JNull JNull);
      listing ← paginate_data self fuel g endpoint;
      repos ← lift (comprehension repo_name listing);
      Rows <$> extend_each self fuel g repos output
    else
      match github_repo self with
      | JArr repos => Rows <$> extend_each self fuel g repos output
      | _ => retrieve_data self fuel g (github_repo self)
      end
  else retrieve_data self fuel g (github_repo self).

(** *** output_manager *)

(** The [if]/[elif] on [self.destination.lower()].  For s3 the text is the
    [string_data] of [load_string].  For gcs the text is written to a
    [NamedTemporaryFile] and, inside the [with] and with no flush in
    between, [upload] is given [tmp.name]: the hook gets a file name, and
    what it reads from that file is its own affair.  Any other destination
    stores nothing. *)
Definition store (self : operator) (output : string) : M unit :=
  if decide (lower (destination self) = "s3") then
    put (Upload S3 (dest_conn_id self) (bucket self) (key self) (StringData output))
  else if decide (lower (destination self) = "gcs") then
    put (Upload GCS (dest_conn_id self) (bucket self) (key self) (Filename output))
  else mret ().

Definition output_manager (self : operator) (output : fetched) : M unit :=
  lines ← lift (comprehension dumps_flatten (items output));
  let output := String.concat newline lines in
  store self output.

Definition execute (self : operator) (fuel : nat) : M unit :=
  output ← gather self fuel;
  output_manager self output.

(** *** __init__ *)

Definition init (github_conn_id github_org github_object dest_conn_id bucket key
                 destination : string) (github_repo : json)
                (payload : gmap string pval) : M operator :=
  let self := Operator github_conn_id github_org github_repo github_object
                       payload destination dest_conn_id bucket key in
  if decide (lower github_object ∉ supported) then lift (Raise UnsupportedObject)
  else mret self.

(** *** Pagination as the specification words it

    The specification passes each record through the filter step page by
    page, as the page is fetched.  [paginate_per_page] follows those words;
    it is compared with [paginate_data] below. *)

Fixpoint fetch_more_filtering (self : operator) (fuel : nat) (g endpoint : string)
    (final_payload : gmap string pval) (response output : list json)
  : M (list json) :=
  if decide (List.length response = 100%nat) then
    match fuel with
    | O => out_of_fuel
    | S fuel' =>
        final_payload' ← lift (next_page final_payload);
        response' ← run g endpoint final_payload';
        log_retrieved final_payload';;
        page ← lift (comprehension (filterMapper (github_object self)) response');
        fetch_more_filtering self fuel' g endpoint final_payload' response'
                             (output ++ page)%list
    end
  else mret output.

Definition paginate_per_page (self : operator) (fuel : nat) (g endpoint : string)
  : M (list json) :=
  let final_payload := merge_payload (payload self) initial_payload in
  response ← run g endpoint final_payload;
  log_retrieved final_payload;;
  page ← lift (comprehension (filterMapper (github_object self)) response);
  fetch_more_filtering self fuel g endpoint final_payload response page.

(** What a computation returns, when it returns. *)
Definition returned {A : Type} (c : M A) (s : state) : option (A * state) :=
  match c s with
  | Some (Ok a, s') => Some (a, s')
  | _ => None
  end.

End Operator.

Arguments state World : clear implicits.
Arguments M World A : clear implicits.

(** ** Notions used in the statements *)

(** The query of the request for page [i], for an operator that leaves
    [page] to the driver. *)
Definition query (self : operator) (i : Z) : gmap string pval :=
  <["page" := PInt i]> (payload self ∪ initial_payload).

(** The requests for [n] successive pages from page [lo] on, and the
    'Retrieved' lines logged for them. *)
Definition page_requests (self : operator) (endpoint : string) (lo n : nat)
  : list (string * gmap string pval) :=
  (fun i : nat => (endpoint, query self (Z.of_nat i))) <$> seq lo n.

Definition page_logs (lo n : nat) : list log_entry :=
  (fun i : nat => Retrieved (PInt (100 * Z.of_nat i))) <$> seq lo n.

(** The query of the request number [k], counting from 0, of an operator
    whose first query has the integer [p0] as its [page]; and the first [n]
    requests of such an operator. *)
Definition query_from (self : operator) (p0 : Z) (k : nat) : gmap string pval :=
  <["page" := PInt (p0 + Z.of_nat k)]> (payload self ∪ initial_payload).

Definition requests_from (self : operator) (endpoint : string) (p0 : Z) (n : nat)
  : list (string * gmap string pval) :=
  (fun k : nat => (endpoint, query_from self p0 k)) <$> seq 0 n.

(** Each query of [qs] but the first is the one before it with its [page]
    incremented. *)
Definition consecutive (qs : list (gmap string pval)) : Prop :=
  ∀ (i : nat) q q', qs !! i = Some q → qs !! S i = Some q' → next_page q = Ok q'.

(** The state once 'Resource is unavailable.' has been logged. *)
Definition noted {World : Type} (s : state World) : state World :=
  State (world s) (requests s) (uploads s) (log s ++ [Unavailable])%list.

Definition initial_state {World : Type} (w : World) : state World :=
  State w [] [] [].

(** What [filterMapper] leaves at a filtered key that held [o]: null stays,
    anything else goes. *)
Definition settle (o : option json) : option json :=
  match o with
  | Some JNull => Some JNull
  | _ => None
  end.

(** Key [k] is not one that entry [e] hoists a value to. *)
Definition unhoisted (e : Filter.entry) (k : string) : Prop :=
  Forall (fun item => Filter.hoisted_key (Filter.filtered e) item ≠ k)
         (default [] (Filter.retained e)).

#[export] Instance unhoisted_dec e k : Decision (unhoisted e k) :=
  ltac:(unfold unhoisted; apply _).

(** ** Backends *)

(** A fetch capability that replays a fixed sequence of responses,
    whatever is asked; the world is what is left of the script. *)
Definition script_run (g endpoint : string) (q : gmap string pval)
    (w : list (result (list json))) : result (list json) * list (result (list json)) :=
  match w with
  | [] => (Raise (HookError "connection closed"), [])
  | r :: w' => (r, w')
  end.

(** A backend holding [dataset] and serving it in pages: page [p] of size
    [n] is the records from offset [n * (p - 1)]. *)
Definition paged_run (dataset : list json) (g endpoint : string)
    (q : gmap string pval) (w : unit) : result (list json) * unit :=
  match q !! "per_page", q !! "page" with
  | Some (PInt n), Some (PInt p) =>
      (Ok (take (Z.to_nat n) (drop (Z.to_nat (n * (p - 1))) dataset)), w)
  | _, _ => (Raise (HookError "422 Unprocessable Entity"), w)
  end.

(** The pages such a backend serves: [n] chunks of a hundred. *)
Definition chunks (dataset : list json) (n : nat) : list (list json) :=
  (fun j : nat => take 100 (drop (100 * j) dataset)) <$> seq 0 n.

(** A backend that answers by endpoint and fails on every endpoint it does
    not know. *)
Definition table_run (table : gmap string (list json)) (g endpoint : string)
    (q : gmap string pval) (w : unit) : result (list json) * unit :=
  match table !! endpoint with
  | Some rows => (Ok rows, w)
  | None => (Raise (HookError "503 Service Unavailable"), w)
  end.

(** A storage hook that accepts every upload. *)
Definition sink_ok {World : Type} (u : upload) (w : World) : result unit * World :=
  (Ok (), w).

(** Stand-ins for [json.dumps(flatten(record))] and for [str]: a record is
    written as its [id] when that is a string. *)
Definition dumps_id (record : json) : result string :=
  match record with
  | JObj m =>
      match m !! "id" with
      | Some (JStr s) => Ok s
      | _ => Ok "{}"
      end
  | _ => Raise TypeError
  end.

Definition str_none (v : json) : string := "".

(** ** Inputs of the examples *)

(** [n] records [{"id": lo}, {"id": lo + 1}, ...]. *)
Definition records (lo : Z) (n : nat) : list json :=
  (fun i => JObj {[ "id" := JNum i ]}) <$> seqZ lo (Z.of_nat n).

Definition three_pages : list (list json) :=
  [ records 0 100; records 100 100; records 200 50 ].

(** An organisation with two repositories, of which only [r2] can be
    fetched. *)
Definition acme : gmap string (list json) :=
  {[ "orgs/acme/repos" := [ JObj {[ "name" := JStr "r1" ]}; JObj {[ "name" := JStr "r2" ]} ];
     "repos/acme/r2/commits" :=
       [ JObj {[ "id" := JStr "c1"; "author" := JObj {[ "id" := JNum 7 ]} ]};
         JObj {[ "id" := JStr "c2" ]} ] ]}.

Definition an_operator (github_object : string) (github_repo : json)
    (payload : gmap string pval) : operator :=
  Operator "github_default" "acme" github_repo github_object payload
           "s3" "aws_default" "lake" "github/out.json".

Definition members_op : operator := an_operator "members" JNull ∅.

(** A caller who asks for [page = 5]. *)
Definition page5_op : operator := an_operator "members" JNull {[ "page" := PInt 5 ]}.

(** Every repository of the organisation, with the object spelled as
    documented and with a capital. *)
Definition commits_all_op : operator := an_operator "commits" (JStr "all") ∅.

Definition capital_op : operator := an_operator "Commits" (JStr "all") ∅.

(** The capital spelling, on one repository. *)
Definition capital_one_op : operator := an_operator "Commits" (JStr "r2") ∅.

(** Callers who ask for fifty, and for two hundred, records a page. *)
Definition fifty_op : operator :=
  an_operator "members" JNull {[ "per_page" := PInt 50 ]}.

Definition two_hundred_op : operator :=
  an_operator "members" JNull {[ "per_page" := PInt 200 ]}.

(** ** Notions used in the further properties *)

(** A value [retain_item] can read a subfield from, or skip: absent, null
    or a dict. *)
Definition well_shaped (o : option json) : Prop :=
  match o with
  | None | Some JNull | Some (JObj _) => True
  | Some _ => False
  end.

(** A backend that answers every request with the same hundred records. *)
Definition always_full_run (g endpoint : string) (q : gmap string pval) (w : unit)
  : result (list json) * unit :=
  (Ok (records 0 100), w).

(** Callers who pass their parameters as text. *)
Definition text_page_op : operator :=
  an_operator "members" JNull {[ "page" := PStr "2" ]}.

Definition text_params_op : operator :=
  an_operator "members" JNull {[ "page" := PStr "2"; "per_page" := PStr "50" ]}.

(** [self] with another [github_repo]. *)
Definition with_repo (self : operator) (github_repo : json) : operator :=
  Operator (github_conn_id self) (github_org self) github_repo (github_object self)
           (payload self) (destination self) (dest_conn_id self) (bucket self)
           (key self).

(** The lower-case destination that selects a storage hook. *)
Definition sink_name (k : sink) : string :=
  match k with
  | S3 => "s3"
  | GCS => "gcs"
  end.

(** Commits since a date, over every repository of the organisation. *)
Definition since_op : operator :=
  an_operator "commits" (JStr "all") {[ "since" := PStr "2017-01-01T00:00:00Z" ]}.

(** * Properties *)

Local Open Scope list_scope.

(** ** The result monad *)

Lemma comprehension_app {A B : Type} (f : A -> result B) (xs ys : list A) :
  comprehension f (xs ++ ys)%list =
  (xs' ← comprehension f xs; ys' ← comprehension f ys; Ok (xs' ++ ys')%list).
Proof.
  induction xs as [|x xs IH]; simpl.
  - destruct (comprehension f ys); done.
  - destruct (f x) as [y|e]; simpl; [|done].
    rewrite IH. destruct (comprehension f xs) as [xs'|e]; simpl; [|done].
    destruct (comprehension f ys); done.
Qed.

(** ** filterMapper *)

Section FilterFacts.

Import Filter.

Variable github_object : string.

Lemma retain_items_lookup f items (m m1 : gmap string json) k :
  for_each (retain_item f) items m = Ok m1 →
  Forall (fun item => hoisted_key f item ≠ k) items →
  m1 !! k = m !! k.
Proof.
  revert m. induction items as [|item items IH]; intros m Hrun Hk; simpl in Hrun.
  - by inversion Hrun.
  - apply Forall_cons in Hk as [Hne Hk].
    destruct (retain_item f item m) as [m'|e] eqn:Hit; simpl in Hrun; [|done].
    rewrite (IH _ Hrun Hk).
    unfold retain_item in Hit.
    destruct (m !! f) as [[| | | | | |sub]|]; try done; try by inversion Hit.
    destruct (sub !! item); inversion Hit; subst; [|done].
    by rewrite lookup_insert_ne.
Qed.

Lemma step_lookup e (m : gmap string json) r :
  step github_object e (JObj m) = Ok r →
  ∃ m', r = JObj m' ∧
    ∀ k, unhoisted e k →
      m' !! k = if decide (name e = github_object ∧ filtered e = k)
                then settle (m !! k) else m !! k.
Proof.
  unfold step. intros Hstep.
  destruct (decide (name e = github_object)) as [Hn|Hn]; cycle 1.
  { inversion Hstep; subst. eexists; split; [done|]. intros k _.
    rewrite decide_False; [done|]. by intros [? _]. }
  destruct (decide (is_Some (m !! filtered e))) as [Hin|Hin]; cycle 1.
  { inversion Hstep; subst. eexists; split; [done|]. intros k _.
    case_decide as Hk; [|done]. destruct Hk as [_ <-].
    apply eq_None_not_Some in Hin. by rewrite Hin. }
  destruct (if truthy (retained e) then _ else _) as [m1|?] eqn:Hloop;
    simpl in Hstep; [|done].
  destruct (drop_filtered (filtered e) m1) as [m2|?] eqn:Hdrop;
    simpl in Hstep; [|done].
  inversion Hstep; subst. eexists; split; [done|]. intros k Hk.
  assert (m1 !! k = m !! k) as Hm1.
  { destruct (truthy (retained e)); [|by inversion Hloop].
    by eapply retain_items_lookup. }
  unfold drop_filtered in Hdrop.
  case_decide as Hd.
  - destruct Hd as [_ <-]. rewrite <-Hm1.
    destruct (m1 !! filtered e) as [[]|] eqn:E; try done;
      inversion Hdrop; subst; simpl; by rewrite ?lookup_delete_eq.
  - rewrite <-Hm1.
    destruct (m1 !! filtered e) as [[]|] eqn:E; try done;
      inversion Hdrop; subst; try done;
      rewrite lookup_delete_ne; try done; naive_solver.
Qed.

Lemma settle_settle o : settle (settle o) = settle o.
Proof. by destruct o as [[]|]. Qed.

Lemma process_lookup table (m : gmap string json) r :
  process github_object (JObj m) table = Ok r →
  ∃ m', r = JObj m' ∧
    ∀ k, Forall (fun e => unhoisted e k) table →
      m' !! k = if decide (Exists (fun e => name e = github_object ∧ filtered e = k) table)
                then settle (m !! k) else m !! k.
Proof.
  unfold process. revert m. induction table as [|e table IH]; intros m Hrun; simpl in Hrun.
  - inversion Hrun; subst. eexists; split; [done|]. intros k _.
    rewrite decide_False; [done|]. by intros ?%Exists_nil.
  - destruct (step github_object e (JObj m)) as [r1|?] eqn:Hstep; simpl in Hrun; [|done].
    apply step_lookup in Hstep as (m1 & -> & Hm1).
    apply IH in Hrun as (m' & -> & Hm').
    eexists; split; [done|]. intros k Hk.
    apply Forall_cons in Hk as [Hke Hk].
    rewrite (Hm' k Hk), (Hm1 k Hke).
    destruct (decide (name e = github_object ∧ filtered e = k)) as [He|He].
    + rewrite (decide_True (P:=Exists _ (e :: table))) by (by left).
      destruct (decide (Exists _ table)); [apply settle_settle|done].
    + destruct (decide (Exists _ table)) as [Ht|Ht].
      * rewrite decide_True; [done|by right].
      * rewrite decide_False; [done|]. by intros [?|?]%Exists_cons.
Qed.

End FilterFacts.

(** In the table of [filterMapper], no filtered field is also a key that
    some entry hoists to. *)
Lemma mapping_separate :
  Forall (fun e' => Forall (fun e => unhoisted e (Filter.filtered e')) Filter.mapping)
         Filter.mapping.
Proof. apply (bool_decide_unpack _). vm_compute. exact I. Qed.

Lemma filterMapper_lookup github_object e (m : gmap string json) r :
  e ∈ Filter.mapping → Filter.name e = github_object →
  filterMapper github_object (JObj m) = Ok r →
  ∃ m', r = JObj m' ∧ m' !! Filter.filtered e = settle (m !! Filter.filtered e).
Proof.
  intros He Hn Hrun. apply process_lookup in Hrun as (m' & -> & Hm').
  exists m'. split; [done|]. rewrite Hm'.
  - rewrite decide_True; [done|]. apply Exists_exists. by exists e.
  - pose proof mapping_separate as Hsep. rewrite Forall_forall in Hsep. by apply Hsep.
Qed.

Lemma retain_items_null f items (m : gmap string json) :
  m !! f = Some JNull → for_each (Filter.retain_item f) items m = Ok m.
Proof.
  intros Hf. induction items as [|item items IH]; simpl; [done|].
  assert (Filter.retain_item f item m = Ok m) as ->
    by (unfold Filter.retain_item; by rewrite Hf).
  apply IH.
Qed.

Lemma step_settled github_object e (m : gmap string json) :
  (Filter.name e = github_object → settle (m !! Filter.filtered e) = m !! Filter.filtered e) →
  Filter.step github_object e (JObj m) = Ok (JObj m).
Proof.
  intros Hs. unfold Filter.step.
  destruct (decide (Filter.name e = github_object)) as [Hn|]; [|done].
  specialize (Hs Hn).
  destruct (decide (is_Some (m !! Filter.filtered e))) as [[v Hv]|]; [|done].
  rewrite Hv in Hs. destruct v; try done.
  assert ((if Filter.truthy (Filter.retained e)
           then for_each (Filter.retain_item (Filter.filtered e))
                         (default [] (Filter.retained e)) m
           else Ok m) = Ok m) as ->.
  { destruct (Filter.truthy _); [by apply retain_items_null|done]. }
  simpl. unfold Filter.drop_filtered. by rewrite Hv.
Qed.

Lemma process_settled github_object table (m : gmap string json) :
  Forall (fun e => Filter.name e = github_object →
                   settle (m !! Filter.filtered e) = m !! Filter.filtered e) table →
  Filter.process github_object (JObj m) table = Ok (JObj m).
Proof.
  unfold Filter.process. induction 1 as [|e table He _ IH]; simpl; [done|].
  by rewrite step_settled.
Qed.

(** On a record that is not a dict, [process] either raises or returns
    the record as it is. *)
Lemma process_not_dict github_object table r r' :
  (∀ m, r ≠ JObj m) →
  Filter.process github_object r table = Ok r' → r' = r.
Proof.
  intros Hr. unfold Filter.process.
  induction table as [|e table IH]; simpl; intros Hrun; [by inversion Hrun|].
  destruct (Filter.step github_object e r) as [r1|] eqn:Hstep; simpl in Hrun; [|done].
  unfold Filter.step in Hstep.
  destruct (decide _); [destruct r; try done; by destruct (Hr m)|].
  inversion Hstep; subst. by apply IH.
Qed.

Lemma filterMapper_fixed github_object r r' :
  filterMapper github_object r = Ok r' → filterMapper github_object r' = Ok r'.
Proof.
  intros Hrun. destruct r as [| | | | | |m].
  7: { pose proof Hrun as Hrun'.
       apply process_lookup in Hrun' as (m' & -> & _).
       apply process_settled, Forall_forall. intros e He Hn.
       destruct (filterMapper_lookup _ _ _ _ He Hn Hrun) as (m'' & [= <-] & ->).
       apply settle_settle. }
  all: pose proof Hrun as Hr; apply process_not_dict in Hr; [by subst|done].
Qed.

(** C1, as amended.  For every record and every entry of the table that
    matches the operator's object, the filtered field is deleted exactly
    when its value is not null: a field that held null is still there,
    holding null, and a field that held anything else (or was absent) is
    absent.  On the record of the specification, [author] is removed and
    [author_id = 7] added, while [committer], which is null, stays and no
    [committer_id] appears. *)
Theorem filter_deletes_unless_null :
  (∀ (github_object : string) (e : Filter.entry) (m : gmap string json) (r : json),
     e ∈ Filter.mapping → Filter.name e = github_object →
     filterMapper github_object (JObj m) = Ok r →
     ∃ m', r = JObj m' ∧ m' !! Filter.filtered e = settle (m !! Filter.filtered e))
  ∧ filterMapper "commits" commit_abc =
      Ok (JObj {[ "sha" := JStr "abc"; "author_id" := JNum 7; "committer" := JNull ]}).
Proof.
  split.
  - intros. by eapply filterMapper_lookup.
  - vm_compute. reflexivity.
Qed.

Lemma filter_deletes_unless_null_witness :
  ∃ m', filterMapper "commits" commit_abc = Ok (JObj m')
        ∧ m' !! "committer" = Some JNull ∧ m' !! "author" = None.
Proof.
  destruct (proj1 filter_deletes_unless_null "commits"
              (Filter.Entry "commits" "committer" (Some ["id"])) commit_abc_fields
              (JObj {[ "sha" := JStr "abc"; "author_id" := JNum 7; "committer" := JNull ]}))
    as (m' & Hr & Hm').
  - vm_compute. right. left.
  - reflexivity.
  - vm_compute. reflexivity.
  - exists m'. inversion Hr; subst. split; [vm_compute; reflexivity|].
    split; vm_compute; reflexivity.
Defined.

(** The claim, as the specification states it, fails on its own example:
    the [committer] key, whose value is null, is not removed. *)
Lemma null_field_is_kept :
  ∃ m', filterMapper "commits" commit_abc = Ok (JObj m')
        ∧ m' !! "committer" ≠ None.
Proof.
  exists {[ "sha" := JStr "abc"; "author_id" := JNum 7; "committer" := JNull ]}.
  split; [vm_compute; reflexivity|]. vm_compute. discriminate.
Qed.

(** C8.  Applying the filter step to the record it returned returns that
    record again; when the first application raises, so does the pair. *)
Theorem filterMapper_idempotent (github_object : string) (record : json) :
  (filterMapper github_object record ≫= filterMapper github_object)
  = filterMapper github_object record.
Proof.
  destruct (filterMapper github_object record) as [r'|e] eqn:Hrun; simpl; [|done].
  by eapply filterMapper_fixed.
Qed.

(** ** Query parameters *)

Lemma merge_payload_union (payload base : gmap string pval) :
  merge_payload payload base = payload ∪ base.
Proof.
  unfold merge_payload.
  apply (map_fold_weak_ind (fun r m => r = m ∪ base)).
  - by rewrite (left_id_L ∅ (∪)).
  - intros i x m r _ ->. by rewrite insert_union_l.
Qed.

Lemma next_page_query self (i : Z) :
  next_page (query self i) = Ok (query self (i + 1)).
Proof.
  unfold next_page, query, getitem. rewrite lookup_insert_eq.
  cbn [mbind result_bind py_succ]. f_equal. apply insert_insert_eq.
Qed.

Lemma retrieved_count_query self (i : Z) :
  payload self !! "per_page" = None →
  retrieved_count (query self i) = Ok (PInt (100 * i)).
Proof.
  intros Hpp. unfold retrieved_count, query, getitem.
  rewrite (lookup_insert_ne _ "page" "per_page") by discriminate.
  rewrite lookup_insert_eq, lookup_union_r by done.
  replace (initial_payload !! "per_page") with (Some (PInt 100))
    by (vm_compute; reflexivity).
  reflexivity.
Qed.

Lemma first_query self :
  payload self !! "page" = None →
  merge_payload (payload self) initial_payload = query self 1.
Proof.
  intros Hp. rewrite merge_payload_union. unfold query.
  symmetry. apply insert_id. rewrite lookup_union_r by done.
  vm_compute. reflexivity.
Qed.

Lemma next_page_query_from self (p0 : Z) (k : nat) :
  next_page (query_from self p0 k) = Ok (query_from self p0 (S k)).
Proof.
  unfold next_page, query_from, getitem. rewrite lookup_insert_eq.
  cbn [mbind result_bind py_succ]. f_equal.
  rewrite insert_insert_eq. do 2 f_equal. lia.
Qed.

Lemma first_query_from self (p0 : Z) :
  (payload self ∪ initial_payload) !! "page" = Some (PInt p0) →
  merge_payload (payload self) initial_payload = query_from self p0 0.
Proof.
  intros Hp. rewrite merge_payload_union. unfold query_from.
  symmetry. apply insert_id. rewrite Hp. do 2 f_equal. lia.
Qed.

(** Whatever the caller supplies, the query has a [per_page]. *)
Lemma per_page_is_set (m : gmap string pval) :
  is_Some ((m ∪ initial_payload) !! "per_page").
Proof.
  destruct (m !! "per_page") as [v|] eqn:Hv.
  - exists v. by apply lookup_union_Some_l.
  - exists (PInt 100). rewrite lookup_union_r by done. vm_compute. reflexivity.
Qed.

(** ** Computations *)

Section Computations.

Context {World : Type}.
Implicit Types s : state World.

Lemma bind_ok {A B} (c : M World A) (f : A → M World B) s a s1 :
  c s = Some (Ok a, s1) → (c ≫= f) s = f a s1.
Proof. unfold mbind, M_bind. by intros ->. Qed.

Lemma bind_raise {A B} (c : M World A) (f : A → M World B) s e s1 :
  c s = Some (Raise e, s1) → (c ≫= f) s = Some (Raise e, s1).
Proof. unfold mbind, M_bind. by intros ->. Qed.

Lemma bind_inv {A B} (c : M World A) (f : A → M World B) s r s' :
  (c ≫= f) s = Some (r, s') →
  (∃ e, c s = Some (Raise e, s') ∧ r = Raise e)
  ∨ (∃ a s1, c s = Some (Ok a, s1) ∧ f a s1 = Some (r, s')).
Proof.
  unfold mbind, M_bind. destruct (c s) as [[[a|e] s1]|]; [|inversion 1|done].
  - intros. right. by exists a, s1.
  - left. by exists e.
Qed.

End Computations.

(** ** paginate_data *)

Section Pagination.

Context {World : Type}.
Variable hook_run :
  string -> string -> gmap string pval -> World -> result (list json) * World.
Implicit Types s : state World.

Lemma fetch_more_unfold fuel g endpoint q response output :
  fetch_more hook_run fuel g endpoint q response output =
  if decide (List.length response = 100%nat) then
    match fuel with
    | O => out_of_fuel
    | S fuel' =>
        q' ← lift (next_page q);
        response' ← run hook_run g endpoint q';
        log_retrieved q';;
        fetch_more hook_run fuel' g endpoint q' response' (output ++ response')%list
    end
  else mret output.
Proof. by destruct fuel. Qed.

Lemma run_eq g endpoint q s r w :
  hook_run g endpoint q (world s) = (r, w) →
  run hook_run g endpoint q s =
  Some (r, State w (requests s ++ [(endpoint, q)]) (uploads s) (log s)).
Proof. unfold run. by intros ->. Qed.

Lemma log_retrieved_query self (i : Z) s :
  payload self !! "per_page" = None →
  log_retrieved (query self i) s =
  Some (Ok (), State (world s) (requests s) (uploads s)
                     (log s ++ [Retrieved (PInt (100 * i))])).
Proof.
  intros Hpp. unfold log_retrieved.
  erewrite bind_ok; [done|]. unfold lift. by rewrite retrieved_count_query.
Qed.

Lemma run_requests g endpoint q s r s1 :
  run hook_run g endpoint q s = Some (r, s1) →
  requests s1 = requests s ++ [(endpoint, q)].
Proof.
  unfold run. destruct (hook_run _ _ _ _). by intros [= _ <-].
Qed.

Lemma log_retrieved_requests q s r s1 :
  log_retrieved q s = Some (r, s1) → requests s1 = requests s.
Proof.
  unfold log_retrieved. intros [(e & H & _)|(a & s2 & H & H2)]%bind_inv.
  - unfold lift in H. by inversion H.
  - unfold lift in H. inversion H; subst. unfold logging_info in H2.
    by inversion H2.
Qed.

Lemma consecutive_cons q q' qs :
  next_page q = Ok q' → consecutive (q' :: qs) → consecutive (q :: q' :: qs).
Proof.
  intros Hq Hqs [|i] q1 q2 H1 H2; simpl in *.
  - by inversion H1; inversion H2; subst.
  - by apply (Hqs i).
Qed.

Lemma consecutive_one q : consecutive [q].
Proof. by intros [|i] q1 q2 H1 H2. Qed.

Lemma fetch_more_requests fuel g endpoint :
  ∀ q response output s r s',
    fetch_more hook_run fuel g endpoint q response output s = Some (r, s') →
    ∃ qs, requests s' = requests s ++ ((fun q => (endpoint, q)) <$> qs)
          ∧ consecutive (q :: qs).
Proof.
  induction fuel as [|fuel IH]; intros q response output s r s';
    rewrite fetch_more_unfold; destruct (decide _) as [Hlen|Hlen].
  - done.
  - intros [= <- <-]. exists []. split; [simpl; by rewrite (right_id_L [] (++))|].
    apply consecutive_one.
  - intros [(e & H & _)|(q' & s1 & Hq & H)]%bind_inv.
    { unfold lift in H. inversion H; subst. exists []. split;
        [simpl; by rewrite (right_id_L [] (++))|apply consecutive_one]. }
    unfold lift in Hq. inversion Hq as [[Hq' Hs]]; subst s1. clear Hq.
    apply bind_inv in H as [(e & H & _)|(response' & s1 & Hrun & H)].
    { apply run_requests in H. exists [q']. split; [done|].
      apply consecutive_cons; [done|apply consecutive_one]. }
    apply run_requests in Hrun.
    apply bind_inv in H as [(e & H & _)|([] & s2 & Hlog & H)].
    { apply log_retrieved_requests in H. exists [q']. split; [simpl; congruence|].
      apply consecutive_cons; [done|apply consecutive_one]. }
    apply log_retrieved_requests in Hlog.
    apply IH in H as (qs & Hreq & Hqs).
    exists (q' :: qs). split.
    + rewrite Hreq, Hlog, Hrun, <-(assoc_L (++)). done.
    + by apply consecutive_cons.
  - intros [= <- <-]. exists []. split; [simpl; by rewrite (right_id_L [] (++))|].
    apply consecutive_one.
Qed.

Lemma paginate_data_requests self fuel g endpoint s r s' :
  paginate_data hook_run self fuel g endpoint s = Some (r, s') →
  ∃ qs, requests s' =
          requests s ++ ((fun q => (endpoint, q)) <$> (payload self ∪ initial_payload) :: qs)
        ∧ consecutive ((payload self ∪ initial_payload) :: qs).
Proof.
  unfold paginate_data. rewrite merge_payload_union.
  intros [(e & H & _)|(response & s1 & Hrun & H)]%bind_inv.
  { apply run_requests in H. exists []. split; [done|apply consecutive_one]. }
  apply run_requests in Hrun.
  apply bind_inv in H as [(e & H & _)|([] & s2 & Hlog & H)].
  { apply log_retrieved_requests in H. exists []. split; [simpl; congruence|].
    apply consecutive_one. }
  apply log_retrieved_requests in Hlog.
  apply bind_inv in H as [(e & H & _)|(o & s3 & Hloop & H)].
  - apply fetch_more_requests in H as (qs & Hreq & Hqs).
    exists qs. split; [|done].
    rewrite Hreq, Hlog, Hrun, <-(assoc_L (++)). done.
  - apply fetch_more_requests in Hloop as (qs & Hreq & Hqs).
    unfold lift in H. inversion H; subst.
    exists qs. split; [|done].
    rewrite Hreq, Hlog, Hrun, <-(assoc_L (++)). done.
Qed.

Lemma fetch_more_filtering_unfold self fuel g endpoint q response output :
  fetch_more_filtering hook_run self fuel g endpoint q response output =
  if decide (List.length response = 100%nat) then
    match fuel with
    | O => out_of_fuel
    | S fuel' =>
        q' ← lift (next_page q);
        response' ← run hook_run g endpoint q';
        log_retrieved q';;
        page ← lift (comprehension (filterMapper (github_object self)) response');
        fetch_more_filtering hook_run self fuel' g endpoint q' response' (output ++ page)
    end
  else mret output.
Proof. by destruct fuel. Qed.

Lemma returned_bind {A B} (c : M World A) (f : A → M World B) s :
  returned (c ≫= f) s =
  match c s with
  | Some (Ok a, s1) => returned (f a) s1
  | _ => None
  end.
Proof.
  unfold returned, mbind, M_bind. by destruct (c s) as [[[a|e] s1]|].
Qed.

Lemma returned_lift {A} (r : result A) s :
  returned (lift r) s = match r with Ok a => Some (a, s) | Raise _ => None end.
Proof. unfold returned, lift. by destruct r. Qed.

Lemma returned_lift_bind {A B} (r : result A) (k : A → M World B) s :
  returned (lift r ≫= k) s =
  match r with Ok a => returned (k a) s | Raise _ => None end.
Proof. rewrite returned_bind. unfold lift. by destruct r. Qed.

Lemma bind_lift {A B} (r : result A) (k : A → M World B) s :
  (lift r ≫= k) s = match r with Ok a => k a s | Raise e => Some (Raise e, s) end.
Proof. unfold mbind, M_bind, lift. by destruct r. Qed.

Lemma bind_run {B} g endpoint q (k : list json → M World B) s :
  (run hook_run g endpoint q ≫= k) s =
  match run hook_run g endpoint q s with
  | Some (Ok a, s1) => k a s1
  | Some (Raise e, s1) => Some (Raise e, s1)
  | None => None
  end.
Proof. done. Qed.

Lemma bind_log {B} q (k : unit → M World B) s :
  (log_retrieved q ≫= k) s =
  match log_retrieved q s with
  | Some (Ok a, s1) => k a s1
  | Some (Raise e, s1) => Some (Raise e, s1)
  | None => None
  end.
Proof. done. Qed.

(** Filtering what the loop has accumulated once it is over returns what
    filtering page by page, inside the loop, returns. *)
Lemma filter_after_or_within self fuel g endpoint :
  ∀ q response output s,
    returned (o ← fetch_more hook_run fuel g endpoint q response output;
              lift (comprehension (filterMapper (github_object self)) o)) s
    = returned (out ← lift (comprehension (filterMapper (github_object self)) output);
                fetch_more_filtering hook_run self fuel g endpoint q response out) s.
Proof.
  set (f := filterMapper (github_object self)).
  induction fuel as [|fuel IH]; intros q response output s;
    rewrite returned_lift_bind, returned_bind, fetch_more_unfold;
    destruct (decide (length response = 100%nat)) as [Hlen|Hlen].
  - unfold out_of_fuel. destruct (comprehension f output); [|done].
    by rewrite fetch_more_filtering_unfold, decide_True.
  - unfold mret, M_ret. rewrite returned_lift.
    destruct (comprehension f output); [|done].
    by rewrite fetch_more_filtering_unfold, decide_False.
  - rewrite bind_lift.
    destruct (comprehension f output) as [out|e] eqn:Hout.
    + rewrite fetch_more_filtering_unfold, decide_True by done.
      rewrite returned_lift_bind.
      destruct (next_page q) as [q'|]; [|done].
      rewrite returned_bind, !bind_run.
      destruct (run hook_run g endpoint q' s) as [[[response'|] s1]|]; try done.
      rewrite returned_bind, !bind_log.
      destruct (log_retrieved q' s1) as [[[[]|] s2]|]; try done.
      rewrite returned_lift_bind.
      specialize (IH q' response' (output ++ response') s2).
      rewrite returned_lift_bind, returned_bind in IH.
      etrans; [exact IH|].
      rewrite comprehension_app, Hout. subst f.
      by destruct (comprehension _ response').
    + destruct (next_page q) as [q'|]; [|done].
      rewrite !bind_run.
      destruct (run hook_run g endpoint q' s) as [[[response'|] s1]|]; try done.
      rewrite !bind_log.
      destruct (log_retrieved q' s1) as [[[[]|] s2]|]; try done.
      specialize (IH q' response' (output ++ response') s2).
      rewrite returned_lift_bind, returned_bind in IH.
      etrans; [exact IH|].
      by rewrite comprehension_app, Hout.
  - unfold mret, M_ret. rewrite returned_lift.
    destruct (comprehension f output); [|done].
    by rewrite fetch_more_filtering_unfold, decide_False.
Qed.

(** C7.  Whatever the fetch capability answers, filtering each page as it
    is fetched, as the specification words it, and filtering the
    accumulated records after the loop, as [paginate_data] does, return
    the same records and leave the same state; when one of the two returns
    nothing (it raises, or the pages never run short), neither does the
    other. *)
Theorem filtering_per_page_returns_the_same
    (self : operator) (fuel : nat) (g endpoint : string) (s : state World) :
  returned (paginate_data hook_run self fuel g endpoint) s
  = returned (paginate_per_page hook_run self fuel g endpoint) s.
Proof.
  unfold paginate_data, paginate_per_page.
  rewrite !returned_bind.
  destruct (run hook_run g endpoint _ s) as [[[response|] s1]|]; try done.
  rewrite !returned_bind.
  destruct (log_retrieved _ s1) as [[[[]|] s2]|]; try done.
  apply filter_after_or_within.
Qed.

Section Trace.

Variables (self : operator) (g endpoint : string) (ws : nat → World).
Hypothesis Hper_page : payload self !! "per_page" = None.

Lemma fetch_more_trace (full : list (list json)) (short : list json) :
  ∀ (k : nat) response output s fuel,
    Forall (fun p => List.length p = 100%nat) full →
    List.length short ≠ 100%nat →
    List.length response = 100%nat →
    world s = ws k →
    (∀ (j : nat) p, (full ++ [short]) !! j = Some p →
       hook_run g endpoint (query self (Z.of_nat (k + j + 1))) (ws (k + j))
       = (Ok p, ws (S (k + j)))) →
    (List.length full < fuel)%nat →
    fetch_more hook_run fuel g endpoint (query self (Z.of_nat k)) response output s =
    Some (Ok (output ++ concat full ++ short)%list,
          State (ws (k + S (List.length full)))
                (requests s ++ page_requests self endpoint (S k) (S (List.length full)))
                (uploads s)
                (log s ++ page_logs (S k) (S (List.length full)))).
Proof.
  induction full as [|p full IH]; intros k response output s fuel Hfull Hshort Hresp Hw Hhook Hfuel.
  - destruct fuel as [|fuel]; [lia|].
    rewrite fetch_more_unfold, decide_True by done.
    erewrite bind_ok; [|unfold lift; by rewrite next_page_query].
    specialize (Hhook 0%nat short eq_refl).
    rewrite !Nat.add_0_r, Nat.add_1_r in Hhook.
    replace (Z.of_nat k + 1)%Z with (Z.of_nat (S k)) by lia.
    erewrite bind_ok; [|apply run_eq; by rewrite Hw, Hhook].
    erewrite bind_ok; [|by apply log_retrieved_query].
    rewrite fetch_more_unfold, decide_False by done.
    by rewrite Nat.add_1_r.
  - destruct fuel as [|fuel]; [simpl in Hfuel; lia|].
    apply Forall_cons in Hfull as [Hp Hfull].
    rewrite fetch_more_unfold, decide_True by done.
    erewrite bind_ok; [|unfold lift; by rewrite next_page_query].
    pose proof (Hhook 0%nat p eq_refl) as H0.
    rewrite !Nat.add_0_r, Nat.add_1_r in H0.
    replace (Z.of_nat k + 1)%Z with (Z.of_nat (S k)) by lia.
    erewrite bind_ok; [|apply run_eq; by rewrite Hw, H0].
    erewrite bind_ok; [|by apply log_retrieved_query].
    rewrite (IH (S k)); try done.
    + cbn [world requests uploads log length concat].
      f_equal. f_equal; [by rewrite <-!(assoc_L (++))|].
      f_equal. all: try (f_equal; lia). all: try by rewrite <-(assoc_L (++)).
    + intros j q Hq. specialize (Hhook (S j) q Hq).
      by replace (S k + j)%nat with (k + S j)%nat by lia.
    + simpl in Hfuel. lia.
Qed.

Hypothesis Hpage : payload self !! "page" = None.

Lemma paginate_data_trace (full : list (list json)) (short : list json) fuel s :
  Forall (fun p => length p = 100%nat) full →
  length short ≠ 100%nat →
  world s = ws 0 →
  (∀ (j : nat) p, (full ++ [short]) !! j = Some p →
     hook_run g endpoint (query self (Z.of_nat (j + 1))) (ws j) = (Ok p, ws (S j))) →
  (length full ≤ fuel)%nat →
  paginate_data hook_run self fuel g endpoint s =
  Some (comprehension (filterMapper (github_object self)) (concat full ++ short),
        State (ws (S (length full)))
              (requests s ++ page_requests self endpoint 1 (S (length full)))
              (uploads s)
              (log s ++ page_logs 1 (S (length full)))).
Proof.
  intros Hfull Hshort Hw Hhook Hfuel. unfold paginate_data.
  rewrite first_query by done.
  destruct full as [|p full].
  - pose proof (Hhook 0%nat short eq_refl) as H0.
    change (Z.of_nat (0 + 1)) with 1%Z in H0.
    erewrite bind_ok; [|apply run_eq; by rewrite Hw, H0].
    erewrite bind_ok; [|by apply log_retrieved_query].
    erewrite bind_ok; [|by rewrite fetch_more_unfold, decide_False].
    done.
  - apply Forall_cons in Hfull as [Hp Hfull].
    pose proof (Hhook 0%nat p eq_refl) as H0.
    change (Z.of_nat (0 + 1)) with 1%Z in H0.
    erewrite bind_ok; [|apply run_eq; by rewrite Hw, H0].
    erewrite bind_ok; [|by apply log_retrieved_query].
    erewrite bind_ok; cycle 1.
    { apply (fetch_more_trace full short 1); try done.
      intros j q Hq. apply (Hhook (S j) q Hq). }
    unfold lift. cbn [world requests uploads log length concat app].
    f_equal. f_equal; [by rewrite <-(assoc_L (++))|].
    f_equal; by rewrite <-(assoc_L (++)).
Qed.

End Trace.

(** The loop for any caller whose [page] is an integer, [per_page] being
    whatever it is: with an integer [page] the 'Retrieved' line can always
    be written. *)
Lemma log_retrieved_query_from self p0 k s :
  ∃ line, log_retrieved (query_from self p0 k) s =
          Some (Ok (), State (world s) (requests s) (uploads s) (log s ++ [line])).
Proof.
  destruct (per_page_is_set (payload self)) as [pp Hpp].
  assert (∃ c, retrieved_count (query_from self p0 k) = Ok c) as [c Hc].
  { unfold retrieved_count, query_from, getitem.
    rewrite (lookup_insert_ne _ "page" "per_page") by discriminate.
    rewrite lookup_insert_eq, Hpp. cbn [mbind result_bind].
    destruct pp; eexists; reflexivity. }
  exists (Retrieved c). unfold log_retrieved.
  erewrite bind_ok; [done|]. unfold lift. by rewrite Hc.
Qed.

Section From.

Variables (self : operator) (g endpoint : string) (ws : nat → World) (p0 : Z).

Lemma fetch_more_from (full : list (list json)) (short : list json) :
  ∀ (k : nat) response output s fuel,
    Forall (fun p => length p = 100%nat) full →
    length short ≠ 100%nat →
    length response = 100%nat →
    world s = ws (S k) →
    (∀ (j : nat) p, (full ++ [short]) !! j = Some p →
       hook_run g endpoint (query_from self p0 (S k + j)) (ws (S k + j))
       = (Ok p, ws (S (S k + j)))) →
    (length full < fuel)%nat →
    ∃ lines,
      fetch_more hook_run fuel g endpoint (query_from self p0 k) response output s =
      Some (Ok (output ++ concat full ++ short),
            State (ws (S k + S (length full)))
                  (requests s ++ ((fun i : nat => (endpoint, query_from self p0 i))
                                    <$> seq (S k) (S (length full))))
                  (uploads s)
                  (log s ++ lines))
      ∧ length lines = S (length full).
Proof.
  induction full as [|p full IH]; intros k response output s fuel Hfull Hshort Hresp Hw Hhook Hfuel.
  - destruct fuel as [|fuel]; [lia|].
    rewrite fetch_more_unfold, decide_True by done.
    erewrite bind_ok; [|unfold lift; by rewrite next_page_query_from].
    specialize (Hhook 0%nat short eq_refl).
    rewrite !Nat.add_0_r in Hhook.
    erewrite bind_ok; [|apply run_eq; by rewrite Hw, Hhook].
    destruct (log_retrieved_query_from self p0 (S k)
                (State (ws (S (S k))) (requests s ++ [(endpoint, query_from self p0 (S k))])
                       (uploads s) (log s))) as [line Hline].
    cbn [world requests uploads log] in Hline.
    erewrite bind_ok; [|exact Hline].
    rewrite fetch_more_unfold, decide_False by done.
    exists [line]. split; [|done].
    unfold mret, M_ret. cbn [world requests uploads log length concat app].
    by rewrite Nat.add_1_r.
  - destruct fuel as [|fuel]; [simpl in Hfuel; lia|].
    apply Forall_cons in Hfull as [Hp Hfull].
    rewrite fetch_more_unfold, decide_True by done.
    erewrite bind_ok; [|unfold lift; by rewrite next_page_query_from].
    pose proof (Hhook 0%nat p eq_refl) as H0.
    rewrite !Nat.add_0_r in H0.
    erewrite bind_ok; [|apply run_eq; by rewrite Hw, H0].
    destruct (log_retrieved_query_from self p0 (S k)
                (State (ws (S (S k))) (requests s ++ [(endpoint, query_from self p0 (S k))])
                       (uploads s) (log s))) as [line Hline].
    cbn [world requests uploads log] in Hline.
    erewrite bind_ok; [|exact Hline].
    destruct (IH (S k) p (output ++ p)
                (State (ws (S (S k))) (requests s ++ [(endpoint, query_from self p0 (S k))])
                       (uploads s) (log s ++ [line])) fuel) as (lines & Hrun & Hlen);
      try done.
    + intros j q Hq. specialize (Hhook (S j) q Hq).
      by replace (S (S k) + j)%nat with (S k + S j)%nat by lia.
    + simpl in Hfuel. lia.
    + exists (line :: lines). split; [|simpl; by rewrite Hlen].
      rewrite Hrun. cbn [world requests uploads log length concat].
      f_equal. f_equal; [by rewrite <-!(assoc_L (++))|].
      f_equal. all: try (f_equal; lia). all: try by rewrite <-(assoc_L (++)).
Qed.

Lemma paginate_data_from (full : list (list json)) (short : list json) fuel s :
  (payload self ∪ initial_payload) !! "page" = Some (PInt p0) →
  Forall (fun p => length p = 100%nat) full →
  length short ≠ 100%nat →
  world s = ws 0%nat →
  (∀ (j : nat) p, (full ++ [short]) !! j = Some p →
     hook_run g endpoint (query_from self p0 j) (ws j) = (Ok p, ws (S j))) →
  (length full ≤ fuel)%nat →
  ∃ lines,
    paginate_data hook_run self fuel g endpoint s =
    Some (comprehension (filterMapper (github_object self)) (concat full ++ short),
          State (ws (S (length full)))
                (requests s ++ requests_from self endpoint p0 (S (length full)))
                (uploads s)
                (log s ++ lines))
    ∧ length lines = S (length full).
Proof.
  intros Hpage Hfull Hshort Hw Hhook Hfuel. unfold paginate_data.
  rewrite (first_query_from _ p0) by done.
  destruct full as [|p full].
  - pose proof (Hhook 0%nat short eq_refl) as H0.
    erewrite bind_ok; [|apply run_eq; by rewrite Hw, H0].
    destruct (log_retrieved_query_from self p0 0
                (State (ws 1%nat) (requests s ++ [(endpoint, query_from self p0 0)])
                       (uploads s) (log s))) as [line Hline].
    cbn [world requests uploads log] in Hline.
    erewrite bind_ok; [|exact Hline].
    erewrite bind_ok; [|by rewrite fetch_more_unfold, decide_False].
    exists [line]. done.
  - apply Forall_cons in Hfull as [Hp Hfull].
    pose proof (Hhook 0%nat p eq_refl) as H0.
    erewrite bind_ok; [|apply run_eq; by rewrite Hw, H0].
    destruct (log_retrieved_query_from self p0 0
                (State (ws 1%nat) (requests s ++ [(endpoint, query_from self p0 0)])
                       (uploads s) (log s))) as [line Hline].
    cbn [world requests uploads log] in Hline.
    erewrite bind_ok; [|exact Hline].
    destruct (fetch_more_from full short 0 p ([] ++ p)
                (State (ws 1%nat) (requests s ++ [(endpoint, query_from self p0 0)])
                       (uploads s) (log s ++ [line])) fuel) as (lines & Hrun & Hlen);
      try done.
    { intros j q Hq. apply (Hhook (S j) q Hq). }
    erewrite bind_ok; [|exact Hrun].
    exists (line :: lines). split; [|simpl; by rewrite Hlen].
    unfold lift, requests_from. cbn [world requests uploads log length concat app].
    f_equal. f_equal; [|f_equal; by rewrite <-(assoc_L (++))].
    f_equal. by rewrite <-(assoc_L (++)).
Qed.

End From.
End Pagination.

Lemma chunks_length dataset n :
  (100 * n ≤ length dataset)%nat →
  Forall (fun p => length p = 100%nat) (chunks dataset n).
Proof.
  intros Hn. unfold chunks. apply Forall_fmap, Forall_forall.
  intros j [_ Hj]%elem_of_seq. simpl.
  rewrite length_take, length_drop. lia.
Qed.

Lemma chunks_concat dataset n :
  concat (chunks dataset n) = take (100 * n) dataset.
Proof.
  unfold chunks. induction n as [|n IH].
  - by rewrite Nat.mul_0_r, take_0.
  - rewrite seq_S, fmap_app, concat_app, IH.
    change (concat _) with (take 100 (drop (100 * n) dataset) ++ []).
    rewrite (right_id_L [] (++)), take_take_drop. f_equal. lia.
Qed.

Lemma paged_run_query dataset self g endpoint (j : nat) :
  payload self !! "per_page" = None →
  paged_run dataset g endpoint (query self (Z.of_nat (j + 1))) () =
  (Ok (take 100 (drop (100 * j) dataset)), ()).
Proof.
  intros Hpp. unfold paged_run, query.
  rewrite (lookup_insert_ne _ "page" "per_page") by discriminate.
  rewrite lookup_insert_eq, lookup_union_r by done.
  replace (initial_payload !! "per_page") with (Some (PInt 100))
    by (vm_compute; reflexivity).
  replace (Z.to_nat (100 * (Z.of_nat (j + 1) - 1))) with (100 * j)%nat by lia.
  reflexivity.
Qed.

(** C3.  A backend that holds exactly [100 * n] records and serves them in
    pages of a hundred is asked for [n + 1] pages, that is, (count / 100) + 1
    requests: pages 1 to [n] are full, page [n + 1] comes back empty, and
    the output is the filter step applied to all the records, in order. *)
Theorem exact_multiple_costs_an_empty_request
    (self : operator) (g endpoint : string) (dataset : list json)
    (n fuel : nat) (s : state unit) :
  payload self !! "per_page" = None →
  payload self !! "page" = None →
  length dataset = (100 * n)%nat →
  (n ≤ fuel)%nat →
  paginate_data (paged_run dataset) self fuel g endpoint s =
    Some (comprehension (filterMapper (github_object self)) dataset,
          State () (requests s ++ page_requests self endpoint 1 (S n))
                (uploads s) (log s ++ page_logs 1 (S n)))
  ∧ length (page_requests self endpoint 1 (S n)) = (length dataset / 100 + 1)%nat
  ∧ paged_run dataset g endpoint (query self (Z.of_nat (n + 1))) () = (Ok [], ()).
Proof.
  intros Hpp Hp Hlen Hfuel. split; [|split].
  - rewrite (paginate_data_trace (paged_run dataset) self g endpoint (fun _ => ())
               Hpp Hp (chunks dataset n) [] fuel s).
    + rewrite chunks_concat, (right_id_L [] (++)), <-Hlen, firstn_all.
      unfold chunks. by rewrite length_fmap, length_seq.
    + apply chunks_length. lia.
    + done.
    + by destruct s as [[] ? ? ?].
    + intros j p Hj. rewrite paged_run_query by done. do 2 f_equal.
      apply lookup_app_Some in Hj as [Hj|[Hj1 Hj2]].
      * unfold chunks in Hj. rewrite list_lookup_fmap in Hj.
        destruct (seq 0 n !! j) as [i|] eqn:Hi; [|done].
        apply lookup_seq in Hi as [-> _]. by inversion Hj.
      * unfold chunks in *. rewrite length_fmap, length_seq in *.
        apply list_lookup_singleton_Some in Hj2 as [Hj2 <-].
        rewrite drop_ge; [done|lia].
    + unfold chunks. by rewrite length_fmap, length_seq.
  - unfold page_requests. rewrite length_fmap, length_seq, Hlen.
    rewrite Nat.mul_comm, Nat.div_mul by done. lia.
  - rewrite paged_run_query by done. rewrite drop_ge; [done|lia].
Qed.

Lemma exact_multiple_costs_an_empty_request_witness :
  paginate_data (paged_run (records 0 200)) members_op 2 "github_default"
                "orgs/acme/members" (initial_state ()) =
    Some (Ok (records 0 200),
          State () (page_requests members_op "orgs/acme/members" 1 3) []
                (page_logs 1 3))
  ∧ length (page_requests members_op "orgs/acme/members" 1 3) = 3%nat.
Proof.
  destruct (exact_multiple_costs_an_empty_request members_op "github_default"
              "orgs/acme/members" (records 0 200) 2 2 (initial_state ()))
    as (Hrun & Hcount & _); [reflexivity|reflexivity|reflexivity|lia|].
  split; [|reflexivity]. rewrite Hrun. vm_compute. reflexivity.
Defined.

(** C2, as amended.  For every fetch capability and every caller whose
    [page], if supplied, is an integer, [paginate_data] asks for successive
    pages, from page 1 or from the caller's own [page], and goes on exactly
    as long as the page it just received has a hundred elements, the literal
    100 of the loop test, whatever [per_page] is: if the capability answers
    with the pages [full], each of a hundred elements, and then with a page
    [short] of any other length (fewer, in particular), the requests issued
    are the [length full + 1] requests for those pages and no other, and the
    output is the filter step applied to the records of all those pages in
    page order.  With pages of 100, 100 and 50 records that is three
    requests, for pages 1, 2 and 3, and 250 records. *)
Theorem pagination_goes_on_while_pages_have_100 :
  (∀ (World : Type)
     (hook_run : string → string → gmap string pval → World
                 → result (list json) * World)
     (self : operator) (g endpoint : string) (ws : nat → World) (p0 : Z)
     (full : list (list json)) (short : list json) (fuel : nat)
     (s : state World),
     (payload self ∪ initial_payload) !! "page" = Some (PInt p0) →
     Forall (fun p => length p = 100%nat) full →
     length short ≠ 100%nat →
     world s = ws 0%nat →
     (∀ (j : nat) p, (full ++ [short]) !! j = Some p →
        hook_run g endpoint (query_from self p0 j) (ws j) = (Ok p, ws (S j))) →
     (length full ≤ fuel)%nat →
     ∃ lines,
       paginate_data hook_run self fuel g endpoint s =
       Some (comprehension (filterMapper (github_object self)) (concat full ++ short),
             State (ws (S (length full)))
                   (requests s ++ requests_from self endpoint p0 (S (length full)))
                   (uploads s)
                   (log s ++ lines))
       ∧ length lines = S (length full))
  ∧ (∀ self : operator,
       payload self !! "page" = None →
       (payload self ∪ initial_payload) !! "page" = Some (PInt 1))
  ∧ (∀ (self : operator) (p : pval),
       payload self !! "page" = Some p →
       (payload self ∪ initial_payload) !! "page" = Some p)
  ∧ paginate_data script_run members_op 2 "github_default" "orgs/acme/members"
                  (initial_state (Ok <$> three_pages)) =
    Some (Ok (records 0 250),
          State [] (requests_from members_op "orgs/acme/members" 1 3) []
                [Retrieved (PInt 100); Retrieved (PInt 200); Retrieved (PInt 300)]).
Proof.
  split; [|split; [|split]].
  - intros. by apply paginate_data_from.
  - intros self Hp. rewrite lookup_union_r by done. vm_compute. reflexivity.
  - intros self p Hp. by apply lookup_union_Some_l.
  - vm_compute. reflexivity.
Qed.

Lemma pagination_goes_on_while_pages_have_100_witness :
  ∃ lines,
    paginate_data script_run page5_op 5 "github_default" "orgs/acme/members"
                  (initial_state (Ok <$> three_pages)) =
    Some (comprehension (filterMapper (github_object page5_op))
                        (concat [records 0 100; records 100 100] ++ records 200 50),
          State (drop 3 (Ok <$> three_pages))
                (requests (initial_state (Ok <$> three_pages))
                 ++ requests_from page5_op "orgs/acme/members" 5 3)
                (uploads (initial_state (Ok <$> three_pages)))
                (log (initial_state (Ok <$> three_pages)) ++ lines))
    ∧ length lines = 3%nat.
Proof.
  refine (proj1 pagination_goes_on_while_pages_have_100 _ script_run page5_op
            "github_default" "orgs/acme/members"
            (fun k => drop k (Ok <$> three_pages)) 5%Z
            [records 0 100; records 100 100] (records 200 50) 5
            (initial_state (Ok <$> three_pages)) _ _ _ _ _ _).
  - reflexivity.
  - repeat constructor.
  - vm_compute. lia.
  - reflexivity.
  - intros [|[|[|j]]] p [= <-]; reflexivity.
  - simpl. lia.
Defined.

(** The claim, as the specification states it, fails: the loop does not
    look at [per_page].  A caller asks for fifty records a page, and a
    backend holding 250 records serves page 1 with exactly fifty of them,
    that is, exactly [per_page]: the loop stops there, after one request and
    with fifty records.  A caller asks for two hundred a page, and a backend
    holding a hundred records serves them all as page 1, fewer than
    [per_page]: the loop goes on and asks for page 2. *)
Lemma per_page_is_not_what_the_loop_tests :
  ((payload fifty_op ∪ initial_payload) !! "per_page" = Some (PInt 50)
   ∧ paged_run (records 0 250) "github_default" "orgs/acme/members"
               (payload fifty_op ∪ initial_payload) ()
     = (Ok (records 0 50), ())
   ∧ length (records 0 50) = 50%nat
   ∧ paginate_data (paged_run (records 0 250)) fifty_op 5 "github_default"
                   "orgs/acme/members" (initial_state ())
     = Some (Ok (records 0 50),
             State () [("orgs/acme/members", payload fifty_op ∪ initial_payload)] []
                   [Retrieved (PInt 50)]))
  ∧ ((payload two_hundred_op ∪ initial_payload) !! "per_page" = Some (PInt 200)
     ∧ paged_run (records 0 100) "github_default" "orgs/acme/members"
                 (payload two_hundred_op ∪ initial_payload) ()
       = (Ok (records 0 100), ())
     ∧ length (records 0 100) = 100%nat
     ∧ paginate_data (paged_run (records 0 100)) two_hundred_op 5 "github_default"
                     "orgs/acme/members" (initial_state ())
       = Some (Ok (records 0 100),
               State () (requests_from two_hundred_op "orgs/acme/members" 1 2) []
                     [Retrieved (PInt 200); Retrieved (PInt 400)])).
Proof. repeat split; vm_compute; reflexivity. Qed.

(** C4, as amended.  The query of the first request is
    [{'per_page': 100, 'page': 1}] with every caller-supplied parameter
    written over it: a parameter the caller supplies has the caller's value,
    [per_page] and [page] included, and [per_page = 100], [page = 1] hold
    only where the caller is silent.  Each later request carries the query
    of the one before with [page] incremented, so a caller-supplied [page]
    is where the numbering starts. *)
Theorem extra_parameters_are_merged_on_top
    (World : Type)
    (hook_run : string → string → gmap string pval → World
                → result (list json) * World)
    (self : operator) (fuel : nat) (g endpoint : string)
    (s : state World) (r : result (list json)) (s' : state World) :
  paginate_data hook_run self fuel g endpoint s = Some (r, s') →
  ∃ first qs,
    requests s' = requests s ++ ((fun q => (endpoint, q)) <$> first :: qs)
    ∧ consecutive (first :: qs)
    ∧ (∀ k v, payload self !! k = Some v → first !! k = Some v)
    ∧ (payload self !! "per_page" = None → first !! "per_page" = Some (PInt 100))
    ∧ (payload self !! "page" = None → first !! "page" = Some (PInt 1)).
Proof.
  intros (qs & Hreq & Hqs)%paginate_data_requests.
  exists (payload self ∪ initial_payload), qs. repeat split; try done.
  - intros k v Hk. by apply lookup_union_Some_l.
  - intros Hk. by rewrite lookup_union_r.
  - intros Hk. by rewrite lookup_union_r.
Qed.

Lemma extra_parameters_are_merged_on_top_witness :
  ∃ (first : gmap string pval) (qs : list (gmap string pval)),
    [("orgs/acme/members", {[ "per_page" := PInt 100; "page" := PInt 5 ]})]
    = [] ++ ((fun q => ("orgs/acme/members", q)) <$> first :: qs)
    ∧ first !! "page" = Some (PInt 5).
Proof.
  destruct (extra_parameters_are_merged_on_top _ script_run page5_op 3
              "github_default" "orgs/acme/members"
              (initial_state [Ok (records 0 3)]) (Ok (records 0 3))
              (State [] [("orgs/acme/members",
                          {[ "per_page" := PInt 100; "page" := PInt 5 ]})] []
                     [Retrieved (PInt 500)]))
    as (first & qs & Hreq & _ & Hover & _).
  - vm_compute. reflexivity.
  - exists first, qs. split; [exact Hreq|]. apply Hover. reflexivity.
Defined.

(** The claim, as the specification states it, fails: a caller who
    supplies [page = 5] has the first, and here only, request sent with
    [page = 5], not [page = 1]. *)
Lemma caller_overrides_page :
  paginate_data script_run page5_op 3 "github_default" "orgs/acme/members"
                (initial_state [Ok (records 0 3)]) =
  Some (Ok (records 0 3),
        State [] [("orgs/acme/members",
                   {[ "per_page" := PInt 100; "page" := PInt 5 ]})] []
              [Retrieved (PInt 500)]).
Proof. vm_compute. reflexivity. Qed.

(** ** The supported objects *)

Lemma supported_lower : Forall (fun x => lower x = x) supported.
Proof. by repeat constructor. Qed.

(** A name that lowercasing changes into a supported one is not itself
    supported. *)
Lemma capitalised_not_supported github_object :
  lower github_object ∈ supported →
  github_object ≠ lower github_object →
  github_object ∉ supported.
Proof.
  intros _ Hne Hin. apply Hne. symmetry.
  pose proof supported_lower as H. rewrite Forall_forall in H. by apply H.
Qed.

Lemma unsupported_in_repo_branch github_object :
  github_object ∉ supported →
  github_object ∉ ["members"; "organizations"; "repositories"].
Proof.
  intros Hobj Hin. apply Hobj.
  repeat (apply elem_of_cons in Hin as [->|Hin];
          [by apply (bool_decide_unpack _)|]).
  by apply elem_of_nil in Hin.
Qed.

(** ** retrieve_data and execute *)

Section Units.

Context {World : Type}.
Variable hook_run :
  string -> string -> gmap string pval -> World -> result (list json) * World.
Variable sink_put : upload -> World -> result unit * World.
Variable dumps_flatten : json -> result string.
Variable str_of : json -> string.
Implicit Types s : state World.

(** What the [try/except] of [retrieve_data] comes to. *)
Lemma retrieve_data_eq self fuel g repo s :
  retrieve_data hook_run str_of self fuel g repo s =
  match methodMapper str_of self (github_object self) (JStr (github_org self)) repo with
  | Raise _ => Some (Ok EmptyStr, noted s)
  | Ok endpoint =>
      match paginate_data hook_run self fuel g endpoint s with
      | Some (Ok rows, s1) => Some (Ok (Rows rows), s1)
      | Some (Raise _, s1) => Some (Ok EmptyStr, noted s1)
      | None => None
      end
  end.
Proof.
  unfold retrieve_data, try_except. rewrite bind_lift.
  destruct (methodMapper _ _ _ _ _) as [endpoint|]; [|done].
  unfold fmap, M_fmap, mbind, M_bind.
  by destruct (paginate_data _ _ _ _ _ s) as [[[rows|] s1]|].
Qed.

Lemma retrieve_data_never_raises self fuel g repo s e s' :
  retrieve_data hook_run str_of self fuel g repo s ≠ Some (Raise e, s').
Proof.
  rewrite retrieve_data_eq. destruct (methodMapper _ _ _ _ _); [|done].
  by destruct (paginate_data _ _ _ _ _ s) as [[[rows|] s1]|].
Qed.

Lemma extend_each_never_raises self fuel g repos :
  ∀ output s e s',
    extend_each hook_run str_of self fuel g repos output s ≠ Some (Raise e, s').
Proof.
  induction repos as [|repo repos IH]; intros output s e s'; simpl; [done|].
  unfold mbind, M_bind.
  destruct (retrieve_data _ _ _ _ _ _ s) as [[[r|e1] s1]|] eqn:Hr; [apply IH| |done].
  by apply retrieve_data_never_raises in Hr.
Qed.

(** Fetching uploads nothing. *)
Lemma run_uploads g endpoint q s r s1 :
  run hook_run g endpoint q s = Some (r, s1) → uploads s1 = uploads s.
Proof. unfold run. destruct (hook_run _ _ _ _). by intros [= _ <-]. Qed.

Lemma log_retrieved_uploads q s r s1 :
  log_retrieved q s = Some (r, s1) → uploads s1 = uploads s.
Proof.
  unfold log_retrieved. rewrite bind_lift.
  destruct (retrieved_count q); [|by intros [= _ <-]].
  unfold logging_info. by intros [= _ <-].
Qed.

Lemma fetch_more_uploads fuel g endpoint :
  ∀ q response output s r s',
    fetch_more hook_run fuel g endpoint q response output s = Some (r, s') →
    uploads s' = uploads s.
Proof.
  induction fuel as [|fuel IH]; intros q response output s r s';
    rewrite fetch_more_unfold; destruct (decide _) as [Hlen|Hlen];
    try done; try by intros [= _ <-].
  rewrite bind_lift. destruct (next_page q) as [q'|]; [|by intros [= _ <-]].
  intros [(e & H & _)|(response' & s1 & Hrun & H)]%bind_inv.
  { by apply run_uploads in H. }
  apply run_uploads in Hrun.
  apply bind_inv in H as [(e & H & _)|([] & s2 & Hlog & H)].
  { apply log_retrieved_uploads in H. congruence. }
  apply log_retrieved_uploads in Hlog. apply IH in H. congruence.
Qed.

Lemma paginate_data_uploads self fuel g endpoint s r s' :
  paginate_data hook_run self fuel g endpoint s = Some (r, s') →
  uploads s' = uploads s.
Proof.
  unfold paginate_data.
  intros [(e & H & _)|(response & s1 & Hrun & H)]%bind_inv.
  { by apply run_uploads in H. }
  apply run_uploads in Hrun.
  apply bind_inv in H as [(e & H & _)|([] & s2 & Hlog & H)].
  { apply log_retrieved_uploads in H. congruence. }
  apply log_retrieved_uploads in Hlog.
  apply bind_inv in H as [(e & H & _)|(o & s3 & Hloop & H)].
  - apply fetch_more_uploads in H. congruence.
  - apply fetch_more_uploads in Hloop. unfold lift in H. inversion H; subst.
    congruence.
Qed.

(** The endpoint of the preliminary listing of repositories. *)
Lemma methodMapper_repositories self org repo :
  methodMapper str_of self "repositories" org repo
  = Ok ("orgs/" ++ github_org self ++ "/repos")%string.
Proof. reflexivity. Qed.

Lemma methodMapper_unsupported self github_object org repo :
  github_object ∉ supported →
  methodMapper str_of self github_object org repo = Raise (KeyError github_object).
Proof.
  intros Hobj. unfold methodMapper.
  cbv zeta. by rewrite not_elem_of_list_to_map_1.
Qed.

(** With an object [methodMapper] does not know, every unit is skipped
    without a request. *)
Lemma extend_each_unresolved self fuel g repos :
  github_object self ∉ supported →
  ∀ output s,
    ∃ s', extend_each hook_run str_of self fuel g repos output s = Some (Ok output, s')
          ∧ world s' = world s ∧ requests s' = requests s ∧ uploads s' = uploads s.
Proof.
  intros Hobj. induction repos as [|repo repos IH]; intros output s; simpl.
  - by exists s.
  - unfold mbind at 1, M_bind at 1.
    rewrite retrieve_data_eq, methodMapper_unsupported by done.
    simpl. rewrite (right_id_L [] (++)).
    destruct (IH output (noted s)) as (s' & -> & ? & ? & ?). by exists s'.
Qed.

(** [execute] with [repository = "all"]: the listing comes first, outside
    [retrieve_data]. *)
Lemma gather_all self fuel s :
  github_object self ∉ ["members"; "organizations"; "repositories"] →
  is_all (github_repo self) = true →
  gather hook_run str_of self fuel s =
  (listing ← paginate_data hook_run self fuel (github_conn_id self)
                           ("orgs/" ++ github_org self ++ "/repos")%string;
   repos ← lift (comprehension repo_name listing);
   Rows <$> extend_each hook_run str_of self fuel (github_conn_id self) repos []) s.
Proof.
  intros Hobj Hall. unfold gather. rewrite decide_True, Hall by done.
  by rewrite bind_lift.
Qed.

(** [output_manager] on an output with no record hands the empty text to
    the storage hook its destination names, and to none otherwise. *)
Lemma output_manager_empty self output s :
  items output = [] →
  output_manager sink_put dumps_flatten self output s = store sink_put self "" s.
Proof.
  intros Hitems. unfold output_manager. rewrite Hitems, bind_lift. done.
Qed.

(** [execute] when the object is one [methodMapper] does not know and the
    repositories are not to be listed: no request, no record. *)
Lemma gather_unresolved self fuel s :
  github_object self ∉ supported →
  is_all (github_repo self) = false →
  ∃ output s',
    gather hook_run str_of self fuel s = Some (Ok output, s')
    ∧ items output = []
    ∧ world s' = world s ∧ requests s' = requests s ∧ uploads s' = uploads s.
Proof.
  intros Hobj Hall. unfold gather.
  rewrite decide_True, Hall by (by apply unsupported_in_repo_branch).
  assert (∃ output s',
    retrieve_data hook_run str_of self fuel (github_conn_id self)
                  (github_repo self) s = Some (Ok output, s')
    ∧ items output = []
    ∧ world s' = world s ∧ requests s' = requests s ∧ uploads s' = uploads s)
    as Hunit.
  { rewrite retrieve_data_eq, methodMapper_unsupported by done.
    by exists EmptyStr, (noted s). }
  destruct (github_repo self) as [| | | | |repos|]; try done.
  destruct (extend_each_unresolved self fuel (github_conn_id self) repos Hobj [] s)
    as (s' & Hrun & ? & ? & ?).
  exists (Rows []), s'. unfold fmap, M_fmap.
  erewrite bind_ok; [|done]. done.
Qed.

(** The same when the repositories are listed and the listing succeeds. *)
Lemma gather_all_unresolved self fuel s listing s1 repos :
  github_object self ∉ supported →
  is_all (github_repo self) = true →
  paginate_data hook_run self fuel (github_conn_id self)
                ("orgs/" ++ github_org self ++ "/repos")%string s
  = Some (Ok listing, s1) →
  comprehension repo_name listing = Ok repos →
  ∃ s',
    gather hook_run str_of self fuel s = Some (Ok (Rows []), s')
    ∧ world s' = world s1 ∧ requests s' = requests s1 ∧ uploads s' = uploads s1.
Proof.
  intros Hobj Hall Hlist Hnames.
  rewrite gather_all by (done || by apply unsupported_in_repo_branch).
  erewrite bind_ok; [|done]. rewrite bind_lift, Hnames.
  destruct (extend_each_unresolved self fuel (github_conn_id self) repos Hobj [] s1)
    as (s' & Hrun & ? & ? & ?).
  exists s'. unfold fmap, M_fmap. erewrite bind_ok; [|done]. done.
Qed.

End Units.

(** C5.  In the loop over the scope units, a unit whose endpoint cannot be
    resolved, or whose pagination raises, contributes nothing to the output
    and the loop goes on with the remaining units, in order; a unit that is
    fetched contributes its rows; and the loop itself never raises.  For
    [repository = "all"] over an organisation with repositories [r1] and
    [r2], where every fetch of [r1] fails, the output is the rows of [r2],
    one 'Resource is unavailable.' line is logged, and the run succeeds. *)
Theorem failed_unit_contributes_nothing :
  (∀ (World : Type)
     (hook_run : string → string → gmap string pval → World
                 → result (list json) * World)
     (str_of : json → string) (self : operator) (fuel : nat) (g : string)
     (repo : json) (repos output : list json) (s : state World),
     (∀ e, methodMapper str_of self (github_object self)
                        (JStr (github_org self)) repo = Raise e →
           extend_each hook_run str_of self fuel g (repo :: repos) output s
           = extend_each hook_run str_of self fuel g repos output (noted s))
     ∧ (∀ endpoint e s1,
           methodMapper str_of self (github_object self)
                        (JStr (github_org self)) repo = Ok endpoint →
           paginate_data hook_run self fuel g endpoint s = Some (Raise e, s1) →
           extend_each hook_run str_of self fuel g (repo :: repos) output s
           = extend_each hook_run str_of self fuel g repos output (noted s1))
     ∧ (∀ endpoint rows s1,
           methodMapper str_of self (github_object self)
                        (JStr (github_org self)) repo = Ok endpoint →
           paginate_data hook_run self fuel g endpoint s = Some (Ok rows, s1) →
           extend_each hook_run str_of self fuel g (repo :: repos) output s
           = extend_each hook_run str_of self fuel g repos (output ++ rows) s1)
     ∧ (∀ e s', extend_each hook_run str_of self fuel g (repo :: repos) output s
                ≠ Some (Raise e, s')))
  ∧ gather (table_run acme) str_none commits_all_op 5 (initial_state ()) =
      Some (Ok (Rows [ JObj {[ "id" := JStr "c1"; "author_id" := JNum 7 ]};
                       JObj {[ "id" := JStr "c2" ]} ]),
            State () [ ("orgs/acme/repos", query commits_all_op 1);
                       ("repos/acme/r1/commits", query commits_all_op 1);
                       ("repos/acme/r2/commits", query commits_all_op 1) ]
                  []
                  [ Retrieved (PInt 100); Unavailable; Retrieved (PInt 100) ])
  ∧ execute (table_run acme) sink_ok dumps_id str_none commits_all_op 5
            (initial_state ()) =
      Some (Ok (),
            State () [ ("orgs/acme/repos", query commits_all_op 1);
                       ("repos/acme/r1/commits", query commits_all_op 1);
                       ("repos/acme/r2/commits", query commits_all_op 1) ]
                  [ Upload S3 "aws_default" "lake" "github/out.json"
                           ("c1" ++ newline ++ "c2")%string ]
                  [ Retrieved (PInt 100); Unavailable; Retrieved (PInt 100) ]).
Proof.
  split; [|split; vm_compute; reflexivity].
  intros. repeat split.
  - intros e Hm. simpl. unfold mbind at 1, M_bind at 1.
    rewrite retrieve_data_eq, Hm. simpl. by rewrite (right_id_L [] (++)).
  - intros endpoint e s1 Hm Hp. simpl. unfold mbind at 1, M_bind at 1.
    rewrite retrieve_data_eq, Hm, Hp. simpl. by rewrite (right_id_L [] (++)).
  - intros endpoint rows s1 Hm Hp. simpl. unfold mbind at 1, M_bind at 1.
    by rewrite retrieve_data_eq, Hm, Hp.
  - intros e s'. apply extend_each_never_raises.
Qed.

Lemma failed_unit_contributes_nothing_witness :
  extend_each (table_run acme) str_none commits_all_op 5 "github_default"
              [JStr "r1"; JStr "r2"] [] (initial_state ())
  = extend_each (table_run acme) str_none commits_all_op 5 "github_default"
                [JStr "r2"] []
                (noted (State () [("repos/acme/r1/commits", query commits_all_op 1)]
                              [] [])).
Proof.
  refine (proj1 (proj2 (proj1 failed_unit_contributes_nothing _ (table_run acme)
            str_none commits_all_op 5 "github_default" (JStr "r1") [JStr "r2"] []
            (initial_state ())))
            "repos/acme/r1/commits" (HookError "503 Service Unavailable")
            (State () [("repos/acme/r1/commits", query commits_all_op 1)] [] [])
            _ _).
  - reflexivity.
  - vm_compute. reflexivity.
Defined.

(** ** The listing of repositories *)

(** C10.  With [repository = "all"] and an object other than members,
    organizations and repositories, [execute] lists the repositories
    outside any [try]: when that pagination raises, or when an entry of the
    listing has no [name], [execute] raises the same exception, in the
    state the failure left, with nothing uploaded.  The same failure inside
    one repository's unit is caught: [retrieve_data] returns the empty
    string. *)
Theorem listing_failure_aborts_the_run
    (World : Type)
    (hook_run : string → string → gmap string pval → World
                → result (list json) * World)
    (sink_put : upload → World → result unit * World)
    (dumps_flatten : json → result string) (str_of : json → string)
    (self : operator) (fuel : nat) (s : state World) :
  github_object self ∉ ["members"; "organizations"; "repositories"] →
  github_repo self = JStr "all" →
  (∀ e s1,
     paginate_data hook_run self fuel (github_conn_id self)
                   ("orgs/" ++ github_org self ++ "/repos")%string s
     = Some (Raise e, s1) →
     execute hook_run sink_put dumps_flatten str_of self fuel s = Some (Raise e, s1)
     ∧ uploads s1 = uploads s)
  ∧ (∀ listing e s1,
       paginate_data hook_run self fuel (github_conn_id self)
                     ("orgs/" ++ github_org self ++ "/repos")%string s
       = Some (Ok listing, s1) →
       comprehension repo_name listing = Raise e →
       execute hook_run sink_put dumps_flatten str_of self fuel s = Some (Raise e, s1)
       ∧ uploads s1 = uploads s)
  ∧ (∀ repo endpoint e s1,
       methodMapper str_of self (github_object self) (JStr (github_org self)) repo
       = Ok endpoint →
       paginate_data hook_run self fuel (github_conn_id self) endpoint s
       = Some (Raise e, s1) →
       retrieve_data hook_run str_of self fuel (github_conn_id self) repo s
       = Some (Ok EmptyStr, noted s1)).
Proof.
  intros Hobj Hall.
  assert (is_all (github_repo self) = true) as Hall' by (by rewrite Hall).
  split; [|split].
  - intros e s1 Hlist. split; [|by eapply paginate_data_uploads].
    unfold execute. erewrite bind_raise; [done|].
    rewrite gather_all by done. by erewrite bind_raise.
  - intros listing e s1 Hlist Hnames. split; [|by eapply paginate_data_uploads].
    unfold execute. erewrite bind_raise; [done|].
    rewrite gather_all by done. erewrite bind_ok; [|done].
    by rewrite bind_lift, Hnames.
  - intros repo endpoint e s1 Hm Hp. by rewrite retrieve_data_eq, Hm, Hp.
Qed.

Lemma listing_failure_aborts_the_run_witness :
  execute (table_run ∅) sink_ok dumps_id str_none commits_all_op 5 (initial_state ())
  = Some (Raise (HookError "503 Service Unavailable"),
          State () [("orgs/acme/repos", query commits_all_op 1)] [] [])
  ∧ uploads (State () [("orgs/acme/repos", query commits_all_op 1)] [] [])
    = uploads (initial_state ()).
Proof.
  refine (proj1 (listing_failure_aborts_the_run unit (table_run ∅) sink_ok
            dumps_id str_none commits_all_op 5 (initial_state ()) _ _)
            (HookError "503 Service Unavailable")
            (State () [("orgs/acme/repos", query commits_all_op 1)] [] []) _).
  - by apply (bool_decide_unpack _).
  - reflexivity.
  - vm_compute. reflexivity.
Defined.

(** ** Object names and their spelling *)

(** C9.  For an object that lowercasing turns into a supported one but
    that is not spelled in lower case (["Commits"], say): [__init__] accepts
    it, because it lowercases before it compares; [methodMapper] looks the
    spelling up as it is and raises [KeyError]; the bare [except] of
    [retrieve_data] turns that into the empty string, so every unit comes
    back empty, with 'Resource is unavailable.' logged and no request sent.
    The run therefore reaches [output_manager] with no record and hands the
    empty text to the storage step, at once when [repository] is not
    ["all"], and after the listing of repositories when it is (the listing
    asks for ["repositories"], in lower case, whatever the object); the
    storage step passes the empty text to the S3 hook, or the name of a
    temporary file it wrote the empty text to to the GCS hook, and the run
    returns when the hook does.  With the object spelled [Commits], on one
    repository and on all the repositories of an organisation that has two,
    the run returns, the empty string is uploaded, and no commit is asked
    for. *)
Theorem capitalised_object_empties_the_run :
  (∀ (World : Type)
     (hook_run : string → string → gmap string pval → World
                 → result (list json) * World)
     (sink_put : upload → World → result unit * World)
     (dumps_flatten : json → result string) (str_of : json → string)
     (self : operator) (fuel : nat) (s : state World),
     lower (github_object self) ∈ supported →
     github_object self ≠ lower (github_object self) →
     init (github_conn_id self) (github_org self) (github_object self)
          (dest_conn_id self) (bucket self) (key self) (destination self)
          (github_repo self) (payload self) s = Some (Ok self, s)
     ∧ (∀ org repo, methodMapper str_of self (github_object self) org repo
                    = Raise (KeyError (github_object self)))
     ∧ (∀ g repo, retrieve_data hook_run str_of self fuel g repo s
                  = Some (Ok EmptyStr, noted s))
     ∧ (is_all (github_repo self) = false →
        ∃ s', execute hook_run sink_put dumps_flatten str_of self fuel s
              = store sink_put self "" s'
              ∧ world s' = world s ∧ requests s' = requests s
              ∧ uploads s' = uploads s)
     ∧ (is_all (github_repo self) = true →
        ∀ listing s1 repos,
          paginate_data hook_run self fuel (github_conn_id self)
                        ("orgs/" ++ github_org self ++ "/repos")%string s
          = Some (Ok listing, s1) →
          comprehension repo_name listing = Ok repos →
          ∃ s', execute hook_run sink_put dumps_flatten str_of self fuel s
                = store sink_put self "" s'
                ∧ world s' = world s1 ∧ requests s' = requests s1
                ∧ uploads s' = uploads s1)
     ∧ (∀ (s' : state World) (w : World),
          lower (destination self) = "s3" →
          sink_put (Upload S3 (dest_conn_id self) (bucket self) (key self)
                           (StringData "")) (world s') = (Ok (), w) →
          store sink_put self "" s'
          = Some (Ok (),
                  State w (requests s')
                        (uploads s' ++ [Upload S3 (dest_conn_id self) (bucket self)
                                               (key self) (StringData "")])
                        (log s')))
     ∧ (∀ (s' : state World) (w : World),
          lower (destination self) = "gcs" →
          sink_put (Upload GCS (dest_conn_id self) (bucket self) (key self)
                           (Filename "")) (world s') = (Ok (), w) →
          store sink_put self "" s'
          = Some (Ok (),
                  State w (requests s')
                        (uploads s' ++ [Upload GCS (dest_conn_id self) (bucket self)
                                               (key self) (Filename "")])
                        (log s'))))
  ∧ execute (table_run acme) sink_ok dumps_id str_none capital_one_op 5
            (initial_state ()) =
      Some (Ok (),
            State () []
                  [ Upload S3 "aws_default" "lake" "github/out.json" (StringData "") ]
                  [ Unavailable ])
  ∧ execute (table_run acme) sink_ok dumps_id str_none capital_op 5
            (initial_state ()) =
      Some (Ok (),
            State () [ ("orgs/acme/repos", query capital_op 1) ]
                  [ Upload S3 "aws_default" "lake" "github/out.json" (StringData "") ]
                  [ Retrieved (PInt 100); Unavailable; Unavailable ]).
Proof.
  split; [|split; vm_compute; reflexivity].
  intros World hook_run sink_put dumps_flatten str_of self fuel s Hlow Hcap.
  pose proof (capitalised_not_supported _ Hlow Hcap) as Hobj.
  split; [|split; [|split; [|split; [|split; [|split]]]]].
  - unfold init. rewrite decide_False by (by intros []). by destruct self.
  - intros org repo. by apply methodMapper_unsupported.
  - intros g repo. by rewrite retrieve_data_eq, methodMapper_unsupported.
  - intros Hall.
    destruct (gather_unresolved hook_run str_of self fuel s Hobj Hall)
      as (output & s' & Hrun & Hitems & ? & ? & ?).
    exists s'. split; [|done]. unfold execute.
    erewrite bind_ok; [|done]. by apply output_manager_empty.
  - intros Hall listing s1 repos Hlist Hnames.
    destruct (gather_all_unresolved hook_run str_of self fuel s listing s1 repos
                Hobj Hall Hlist Hnames) as (s' & Hrun & ? & ? & ?).
    exists s'. split; [|done]. unfold execute.
    erewrite bind_ok; [|done]. by apply output_manager_empty.
  - intros s' w Hs3 Hput. unfold store, put.
    rewrite decide_True by done. by rewrite Hput.
  - intros s' w Hgcs Hput. unfold store, put.
    rewrite decide_False by (rewrite Hgcs; discriminate).
    rewrite decide_True by done. by rewrite Hput.
Qed.

Lemma capitalised_object_empties_the_run_witness :
  ∃ s', execute (table_run acme) sink_ok dumps_id str_none capital_op 5
                (initial_state ())
        = store sink_ok capital_op "" s'
        ∧ world s' = ()
        ∧ requests s' = [("orgs/acme/repos", query capital_op 1)]
        ∧ uploads s' = [].
Proof.
  refine (proj1 (proj2 (proj2 (proj2 (proj2
            (proj1 capitalised_object_empties_the_run unit (table_run acme) sink_ok
               dumps_id str_none capital_op 5 (initial_state ()) _ _)))))
            _
            [ JObj {[ "name" := JStr "r1" ]}; JObj {[ "name" := JStr "r2" ]} ]
            (State () [("orgs/acme/repos", query capital_op 1)] []
                   [Retrieved (PInt 100)])
            [JStr "r1"; JStr "r2"] _ _).
  - by apply (bool_decide_unpack _).
  - discriminate.
  - reflexivity.
  - vm_compute. reflexivity.
  - reflexivity.
Defined.

(** C6, as amended.  An object whose lower-case spelling is outside the
    supported tuple makes [__init__] raise, and leaves the state as it was:
    no request has been sent. *)
Theorem unsupported_object_is_rejected
    (World : Type)
    (github_conn_id github_org github_object dest_conn_id bucket key
     destination : string) (github_repo : json) (payload : gmap string pval)
    (s : state World) :
  lower github_object ∉ supported →
  init github_conn_id github_org github_object dest_conn_id bucket key
       destination github_repo payload s
  = Some (Raise UnsupportedObject, s).
Proof. intros Hobj. unfold init. by rewrite decide_True. Qed.

Lemma unsupported_object_is_rejected_witness :
  init "github_default" "acme" "comments" "aws_default" "lake" "github/out.json"
       "s3" JNull ∅ (initial_state ())
  = Some (Raise UnsupportedObject, initial_state ()).
Proof.
  apply unsupported_object_is_rejected.
  by apply (bool_decide_unpack _).
Defined.

(** The claim, as the specification states it, fails: [Commits] is not one
    of the eight supported names, and [__init__] accepts it. *)
Lemma capitalised_object_is_accepted :
  ("Commits" ∉ supported)
  ∧ init "github_default" "acme" "Commits" "aws_default" "lake" "github/out.json"
         "s3" (JStr "all") ∅ (initial_state ())
    = Some (Ok capital_op, initial_state ()).
Proof. split; [by apply (bool_decide_unpack _)|reflexivity]. Qed.

(** * Further properties *)

(** ** filterMapper *)

Lemma step_other github_object e record :
  Filter.name e ≠ github_object → Filter.step github_object e record = Ok record.
Proof. intros Hn. unfold Filter.step. by rewrite decide_False. Qed.

Lemma process_without_rule github_object table record :
  Forall (fun e => Filter.name e ≠ github_object) table →
  Filter.process github_object record table = Ok record.
Proof.
  unfold Filter.process. induction 1 as [|e table He _ IH]; simpl; [done|].
  by rewrite step_other.
Qed.

(** X1.  For an object that no entry of the table names (members,
    organizations, or any name the table does not know), [filterMapper]
    returns the record as it is, whatever the record, a dict or not. *)
Theorem filterMapper_without_rule (github_object : string) (record : json) :
  github_object ∉ Filter.name <$> Filter.mapping →
  filterMapper github_object record = Ok record.
Proof.
  intros Hobj. apply process_without_rule, Forall_forall.
  intros e He Hn. apply Hobj, list_elem_of_fmap. by exists e.
Qed.

Lemma filterMapper_without_rule_witness :
  filterMapper "members" (JStr "octocat") = Ok (JStr "octocat").
Proof.
  apply filterMapper_without_rule. by apply (bool_decide_unpack _).
Defined.

Lemma process_not_a_dict github_object table record :
  (∀ m, record ≠ JObj m) →
  Exists (fun e => Filter.name e = github_object) table →
  Filter.process github_object record table = Raise AttributeError.
Proof.
  intros Hr. unfold Filter.process.
  induction table as [|e table IH]; intros Hex; [by apply Exists_nil in Hex|].
  simpl. destruct (decide (Filter.name e = github_object)) as [Hn|Hn].
  - unfold Filter.step. rewrite decide_True by done.
    destruct record; try done. by destruct (Hr m).
  - rewrite step_other by done. simpl. apply IH.
    by apply Exists_cons in Hex as [?|?].
Qed.

(** X2.  For an object that some entry of the table names, a record that
    is not a dict makes [filterMapper] raise [AttributeError]: [process]
    calls [record.keys()] on it. *)
Theorem filterMapper_not_a_dict (github_object : string) (record : json) :
  github_object ∈ Filter.name <$> Filter.mapping →
  (∀ m, record ≠ JObj m) →
  filterMapper github_object record = Raise AttributeError.
Proof.
  intros Hobj Hr. apply process_not_a_dict; [done|].
  apply list_elem_of_fmap in Hobj as (e & -> & He).
  apply Exists_exists. by exists e.
Qed.

Lemma filterMapper_not_a_dict_witness :
  filterMapper "commits" (JStr "message") = Raise AttributeError.
Proof.
  apply filterMapper_not_a_dict; [by apply (bool_decide_unpack _)|done].
Defined.

(** *** The only exception *)

Lemma retain_item_keeps f item (m m1 : gmap string json) :
  Filter.retain_item f item m = Ok m1 → is_Some (m !! f) → is_Some (m1 !! f).
Proof.
  unfold Filter.retain_item. intros Hit Hf.
  destruct (m !! f) as [[| | | | | |sub]|] eqn:E; try done;
    try (inversion Hit; subst; by rewrite E).
  destruct (sub !! item); inversion Hit; subst; [|by rewrite E].
  rewrite lookup_insert. case_decide; [done|by rewrite E].
Qed.

Lemma retain_items_raise f items (m : gmap string json) e :
  is_Some (m !! f) →
  for_each (Filter.retain_item f) items m = Raise e → e = AttributeError.
Proof.
  revert m. induction items as [|item items IH]; intros m Hf; simpl; [done|].
  destruct (Filter.retain_item f item m) as [m1|e1] eqn:Hit; simpl.
  - apply IH. by eapply retain_item_keeps.
  - intros [= <-]. unfold Filter.retain_item in Hit.
    destruct Hf as [v Hv]. rewrite Hv in Hit.
    destruct v as [| | | | | |sub]; try by inversion Hit.
    by destruct (sub !! item).
Qed.

Lemma retain_items_keep f items (m m1 : gmap string json) :
  is_Some (m !! f) →
  for_each (Filter.retain_item f) items m = Ok m1 → is_Some (m1 !! f).
Proof.
  revert m. induction items as [|item items IH]; intros m Hf; simpl.
  - by intros [= <-].
  - destruct (Filter.retain_item f item m) as [m2|] eqn:Hit; simpl; [|done].
    apply IH. by eapply retain_item_keeps.
Qed.

Lemma step_raise github_object e record x :
  Filter.step github_object e record = Raise x → x = AttributeError.
Proof.
  unfold Filter.step. destruct (decide _); [|done].
  destruct record as [| | | | | |m]; try (by intros [= <-]).
  destruct (decide (is_Some (m !! Filter.filtered e))) as [Hf|]; [|done].
  destruct (if Filter.truthy (Filter.retained e) then _ else _) as [m1|x1] eqn:Hloop;
    simpl.
  - assert (is_Some (m1 !! Filter.filtered e)) as [v Hv].
    { destruct (Filter.truthy _); [by eapply retain_items_keep|inversion Hloop; by subst]. }
    unfold Filter.drop_filtered. rewrite Hv. by destruct v.
  - intros [= <-]. destruct (Filter.truthy _); [|done].
    by eapply retain_items_raise.
Qed.

(** X3.  [AttributeError] is the only exception [filterMapper] raises:
    the [KeyError] of [record[entry['filtered']]] cannot happen, since the
    key was found in the record and hoisting does not remove it. *)
Theorem filterMapper_raises_only_AttributeError
    (github_object : string) (record : json) (x : exn) :
  filterMapper github_object record = Raise x → x = AttributeError.
Proof.
  unfold filterMapper, Filter.process. generalize Filter.mapping. intros table.
  revert record. induction table as [|e table IH]; intros record; simpl; [done|].
  destruct (Filter.step github_object e record) as [r1|x1] eqn:Hstep; simpl.
  - apply IH.
  - intros [= <-]. by eapply step_raise.
Qed.

Lemma filterMapper_raises_only_AttributeError_witness :
  ∃ x, filterMapper "commits" (JObj {[ "author" := JStr "octocat" ]}) = Raise x
       ∧ x = AttributeError.
Proof.
  exists AttributeError. split; [vm_compute; reflexivity|].
  apply (filterMapper_raises_only_AttributeError "commits"
           (JObj {[ "author" := JStr "octocat" ]})).
  vm_compute. reflexivity.
Defined.

(** *** When the filter step succeeds *)

Section Table.

Variable github_object : string.

Lemma step_lookup_matching e (m : gmap string json) r :
  Filter.step github_object e (JObj m) = Ok r →
  ∃ m', r = JObj m' ∧
    ∀ k, (Filter.name e = github_object → unhoisted e k) →
      m' !! k = if decide (Filter.name e = github_object ∧ Filter.filtered e = k)
                then settle (m !! k) else m !! k.
Proof.
  destruct (decide (Filter.name e = github_object)) as [Hn|Hn].
  - intros (m' & -> & Hm')%step_lookup. exists m'. split; [done|].
    intros k Hk. apply Hm'. by apply Hk.
  - rewrite step_other by done. intros [= <-]. exists m. split; [done|].
    intros k _. rewrite decide_False; [done|]. by intros [? _].
Qed.

Lemma process_lookup_matching table (m : gmap string json) r :
  Filter.process github_object (JObj m) table = Ok r →
  ∃ m', r = JObj m' ∧
    ∀ k, Forall (fun e => Filter.name e = github_object → unhoisted e k) table →
      m' !! k =
      if decide (Exists (fun e => Filter.name e = github_object
                                  ∧ Filter.filtered e = k) table)
      then settle (m !! k) else m !! k.
Proof.
  unfold Filter.process. revert m.
  induction table as [|e table IH]; intros m Hrun; simpl in Hrun.
  - inversion Hrun; subst. exists m. split; [done|]. intros k _.
    rewrite decide_False; [done|]. by intros ?%Exists_nil.
  - destruct (Filter.step github_object e (JObj m)) as [r1|?] eqn:Hstep;
      simpl in Hrun; [|done].
    apply step_lookup_matching in Hstep as (m1 & -> & Hm1).
    apply IH in Hrun as (m' & -> & Hm').
    exists m'. split; [done|]. intros k Hk.
    apply Forall_cons in Hk as [Hke Hk].
    rewrite (Hm' k Hk), (Hm1 k Hke).
    destruct (decide (Filter.name e = github_object ∧ Filter.filtered e = k)) as [He|He].
    + rewrite (decide_True (P:=Exists _ (e :: table))) by (by left).
      destruct (decide (Exists _ table)); [by destruct (m !! k) as [[]|]|done].
    + destruct (decide (Exists _ table)) as [Ht|Ht].
      * rewrite decide_True; [done|by right].
      * rewrite decide_False; [done|]. by intros [?|?]%Exists_cons.
Qed.

Lemma retain_item_eq f item (m : gmap string json) v :
  m !! f = Some v →
  Filter.retain_item f item m =
  match v with
  | JNull => Ok m
  | JObj sub =>
      match sub !! item with
      | Some x => Ok (<[Filter.hoisted_key f item := x]> m)
      | None => Ok m
      end
  | _ => Raise AttributeError
  end.
Proof. unfold Filter.retain_item. by intros ->. Qed.

Lemma retain_items_dict f items (m : gmap string json) sub :
  m !! f = Some (JObj sub) →
  Forall (fun item => Filter.hoisted_key f item ≠ f) items →
  ∃ m1, for_each (Filter.retain_item f) items m = Ok m1.
Proof.
  revert m. induction items as [|item items IH]; intros m Hf Hne.
  - by exists m.
  - apply Forall_cons in Hne as [Hne1 Hne].
    cbn [for_each]. rewrite (retain_item_eq _ _ _ _ Hf).
    destruct (sub !! item) as [v|]; simpl; apply IH; try done.
    by rewrite lookup_insert_ne.
Qed.

Lemma step_ok_shape e (m : gmap string json) r :
  Filter.step github_object e (JObj m) = Ok r →
  Filter.name e = github_object → Filter.truthy (Filter.retained e) = true →
  well_shaped (m !! Filter.filtered e).
Proof.
  unfold Filter.step. intros Hstep Hn Ht. rewrite decide_True, Ht in Hstep by done.
  destruct (decide (is_Some (m !! Filter.filtered e))) as [[v Hv]|Hf].
  - rewrite Hv. destruct (Filter.retained e) as [[|item items]|]; try done.
    cbn -[Filter.retain_item Filter.drop_filtered] in Hstep.
    rewrite (retain_item_eq _ _ _ _ Hv) in Hstep.
    by destruct v.
  - apply eq_None_not_Some in Hf. by rewrite Hf.
Qed.

Lemma step_ok_of_shape e (m : gmap string json) :
  unhoisted e (Filter.filtered e) →
  (Filter.name e = github_object → Filter.truthy (Filter.retained e) = true →
   well_shaped (m !! Filter.filtered e)) →
  ∃ m1, Filter.step github_object e (JObj m) = Ok (JObj m1).
Proof.
  intros Hun Hshape. unfold Filter.step.
  destruct (decide (Filter.name e = github_object)) as [Hn|]; [|by exists m].
  destruct (decide (is_Some (m !! Filter.filtered e))) as [[v Hv]|]; [|by exists m].
  destruct (Filter.truthy (Filter.retained e)) eqn:Ht.
  - specialize (Hshape Hn eq_refl). rewrite Hv in Hshape.
    destruct v as [| | | | | |sub]; try done.
    + rewrite retain_items_null by done. simpl.
      unfold Filter.drop_filtered. rewrite Hv. by exists m.
    + destruct (retain_items_dict _ (default [] (Filter.retained e)) m sub Hv Hun)
        as [m1 Hm1].
      rewrite Hm1. simpl.
      assert (is_Some (m1 !! Filter.filtered e)) as [v1 Hv1].
      { eapply retain_items_keep; [|done]. by rewrite Hv. }
      unfold Filter.drop_filtered. rewrite Hv1. destruct v1; by eexists.
  - simpl. unfold Filter.drop_filtered. rewrite Hv. destruct v; by eexists.
Qed.

Lemma process_ok_iff table (m : gmap string json) :
  (∀ e e', e ∈ table → e' ∈ table → unhoisted e (Filter.filtered e')) →
  NoDup ((fun e => (Filter.name e, Filter.filtered e)) <$> table) →
  (∃ r, Filter.process github_object (JObj m) table = Ok r)
  ↔ Forall (fun e => Filter.name e = github_object →
                     Filter.truthy (Filter.retained e) = true →
                     well_shaped (m !! Filter.filtered e)) table.
Proof.
  unfold Filter.process. revert m.
  induction table as [|e table IH]; intros m Hsep Hnd; simpl.
  { split; [done|]. by exists (JObj m). }
  rewrite fmap_cons in Hnd. apply NoDup_cons in Hnd as [Hfresh Hnd].
  assert (∀ e1 e2, e1 ∈ table → e2 ∈ table → unhoisted e1 (Filter.filtered e2))
    as Hsep' by (intros; apply Hsep; by right).
  assert (∀ m1 : gmap string json,
    (∀ k, unhoisted e k →
       m1 !! k = if decide (Filter.name e = github_object ∧ Filter.filtered e = k)
                 then settle (m !! k) else m !! k) →
    ∀ e', e' ∈ table → Filter.name e' = github_object →
          m1 !! Filter.filtered e' = m !! Filter.filtered e') as Hsame.
  { intros m1 Hm1 e' He' Hn'. rewrite Hm1 by (apply Hsep; [by left|by right]).
    rewrite decide_False; [done|]. intros [Hn Hf]. apply Hfresh.
    apply list_elem_of_fmap. exists e'. split; [|done]. by rewrite Hn, Hf, Hn'. }
  split.
  - intros [r Hrun].
    destruct (Filter.step github_object e (JObj m)) as [r1|] eqn:Hstep;
      simpl in Hrun; [|done].
    pose proof Hstep as (m1 & -> & Hm1)%step_lookup.
    apply Forall_cons. split; [by eapply step_ok_shape|].
    assert (Forall (fun e0 => Filter.name e0 = github_object →
                     Filter.truthy (Filter.retained e0) = true →
                     well_shaped (m1 !! Filter.filtered e0)) table) as Hall.
    { apply IH; [done..|]. by exists r. }
    rewrite Forall_forall in Hall. apply Forall_forall.
    intros e' He' Hn' Ht'. rewrite <-(Hsame m1 Hm1 e' He' Hn'). by apply Hall.
  - intros [He Hall]%Forall_cons.
    destruct (step_ok_of_shape e m) as [m1 Hstep]; [apply Hsep; by left|done|].
    rewrite Hstep. simpl.
    pose proof Hstep as (m1' & [= <-] & Hm1)%step_lookup.
    apply IH; [done..|].
    rewrite Forall_forall in Hall. apply Forall_forall.
    intros e' He' Hn' Ht'. rewrite (Hsame m1 Hm1 e' He' Hn'). by apply Hall.
Qed.

End Table.

Lemma mapping_NoDup :
  NoDup ((fun e => (Filter.name e, Filter.filtered e)) <$> Filter.mapping).
Proof. apply (bool_decide_unpack _). vm_compute. exact I. Qed.

Lemma mapping_unhoisted e e' :
  e ∈ Filter.mapping → e' ∈ Filter.mapping → unhoisted e (Filter.filtered e').
Proof.
  intros He He'. pose proof mapping_separate as Hsep.
  rewrite Forall_forall in Hsep. specialize (Hsep e' He').
  rewrite Forall_forall in Hsep. by apply Hsep.
Qed.

(** X4.  On a dict, [filterMapper] returns exactly when, for every entry
    that names the object and has retained subfields, the filtered field is
    absent, null or a dict; otherwise (a string, a number, a list in that
    field) it raises. *)
Theorem filterMapper_succeeds_iff (github_object : string) (m : gmap string json) :
  (∃ r, filterMapper github_object (JObj m) = Ok r)
  ↔ ∀ e, e ∈ Filter.mapping → Filter.name e = github_object →
         Filter.truthy (Filter.retained e) = true →
         well_shaped (m !! Filter.filtered e).
Proof.
  unfold filterMapper.
  rewrite process_ok_iff by (apply mapping_unhoisted || apply mapping_NoDup).
  by rewrite Forall_forall.
Qed.

Lemma filterMapper_succeeds_iff_witness :
  well_shaped (commit_abc_fields !! "author").
Proof.
  apply (proj1 (filterMapper_succeeds_iff "commits" commit_abc_fields)
           (ex_intro _ (JObj {[ "sha" := JStr "abc"; "author_id" := JNum 7;
                                "committer" := JNull ]}) eq_refl)
           (Filter.Entry "commits" "author" (Some ["id"]))).
  - by left.
  - reflexivity.
  - reflexivity.
Defined.

(** *** Hoisting *)

Lemma append_inj_l (a b c : string) : (a ++ b = a ++ c)%string → b = c.
Proof. induction a as [|x a IH]; simpl; [done|]. intros [= H]. by apply IH. Qed.

Lemma hoisted_key_inj f item item' :
  Filter.hoisted_key f item = Filter.hoisted_key f item' → item = item'.
Proof.
  unfold Filter.hoisted_key. intros H%append_inj_l. by apply (append_inj_l "_").
Qed.

Lemma retain_items_hoist f items item (m m1 : gmap string json) sub v :
  m !! f = Some (JObj sub) →
  Forall (fun item' => Filter.hoisted_key f item' ≠ f) items →
  sub !! item = Some v →
  item ∈ items ∨ m !! Filter.hoisted_key f item = Some v →
  for_each (Filter.retain_item f) items m = Ok m1 →
  m1 !! Filter.hoisted_key f item = Some v ∧ m1 !! f = Some (JObj sub).
Proof.
  intros Hf Hne Hv. revert m Hf.
  induction items as [|item0 items IH]; intros m Hf Hin Hrun.
  - inversion Hrun; subst. destruct Hin as [Hin|Hin]; [|done].
    by apply elem_of_nil in Hin.
  - apply Forall_cons in Hne as [Hne0 Hne].
    cbn [for_each] in Hrun. rewrite (retain_item_eq _ _ _ _ Hf) in Hrun.
    destruct (decide (item0 = item)) as [->|Hitem].
    + rewrite Hv in Hrun. simpl in Hrun.
      apply (IH Hne) in Hrun; [done|by rewrite lookup_insert_ne|].
      right. apply lookup_insert_eq.
    + assert (item ∈ items ∨ m !! Filter.hoisted_key f item = Some v) as Hin'.
      { destruct Hin as [[?|?]%elem_of_cons|?]; [done|by left|by right]. }
      destruct (sub !! item0) as [x|]; simpl in Hrun.
      * apply (IH Hne) in Hrun; [done|by rewrite lookup_insert_ne|].
        destruct Hin' as [?|Hm]; [by left|right].
        rewrite lookup_insert_ne; [done|]. by intros ?%hoisted_key_inj.
      * by apply (IH Hne) in Hrun.
Qed.

Lemma step_hoists github_object e item (m : gmap string json) sub v r :
  Filter.name e = github_object →
  unhoisted e (Filter.filtered e) →
  item ∈ default [] (Filter.retained e) →
  m !! Filter.filtered e = Some (JObj sub) →
  sub !! item = Some v →
  Filter.step github_object e (JObj m) = Ok r →
  ∃ m1, r = JObj m1 ∧ m1 !! Filter.hoisted_key (Filter.filtered e) item = Some v.
Proof.
  intros Hn Hun Hitem Hf Hv. unfold Filter.step. rewrite decide_True by done.
  rewrite decide_True by (by rewrite Hf).
  assert (Filter.truthy (Filter.retained e) = true) as ->.
  { destruct (Filter.retained e) as [[|]|]; try done; by apply elem_of_nil in Hitem. }
  destruct (for_each _ _ m) as [m1|] eqn:Hloop; simpl; [|done].
  destruct (retain_items_hoist _ _ item m m1 sub v Hf Hun Hv (or_introl Hitem) Hloop)
    as [Hk Hf1].
  unfold Filter.drop_filtered. rewrite Hf1. intros [= <-].
  eexists. split; [done|]. rewrite lookup_delete_ne; [done|].
  unfold unhoisted in Hun. rewrite Forall_forall in Hun. intros Heq.
  by apply (Hun item Hitem).
Qed.

Lemma process_app github_object (pre post : list Filter.entry) record :
  Filter.process github_object record (pre ++ post) =
  (r ← Filter.process github_object record pre;
   Filter.process github_object r post).
Proof.
  unfold Filter.process. revert record.
  induction pre as [|e pre IH]; intros record; simpl; [done|].
  destruct (Filter.step github_object e record); simpl; [apply IH|done].
Qed.

(** In the table, two entries for the same object with different
    filtered fields never hoist to the same key. *)
Lemma mapping_hoists_apart :
  Forall (fun e1 => Forall (fun e2 =>
    Filter.name e1 = Filter.name e2 → Filter.filtered e1 ≠ Filter.filtered e2 →
    Forall (fun item => unhoisted e2 (Filter.hoisted_key (Filter.filtered e1) item))
           (default [] (Filter.retained e1))) Filter.mapping) Filter.mapping.
Proof. apply (bool_decide_unpack _). vm_compute. exact I. Qed.

(** X5.  When an entry names the object and the record holds a dict in
    the filtered field, every retained subfield that dict has is found in
    the result under the key [filtered_subfield], with the value it had,
    and the filtered field itself is gone. *)
Theorem filterMapper_hoists
    (github_object : string) (e : Filter.entry) (item : string)
    (m sub : gmap string json) (v r : json) :
  e ∈ Filter.mapping → Filter.name e = github_object →
  item ∈ default [] (Filter.retained e) →
  m !! Filter.filtered e = Some (JObj sub) →
  sub !! item = Some v →
  filterMapper github_object (JObj m) = Ok r →
  ∃ m', r = JObj m'
        ∧ m' !! Filter.hoisted_key (Filter.filtered e) item = Some v
        ∧ m' !! Filter.filtered e = None.
Proof.
  intros He Hn Hitem Hf Hv Hrun.
  destruct (filterMapper_lookup _ _ _ _ He Hn Hrun) as (m' & -> & Hgone).
  exists m'. split; [done|]. split; [|by rewrite Hgone, Hf].
  unfold filterMapper in Hrun.
  pose proof mapping_NoDup as Hnd.
  pose proof mapping_unhoisted as Hsep.
  pose proof mapping_hoists_apart as Hapart.
  destruct (list_elem_of_split _ _ He) as (pre & post & Hsplit).
  rewrite Hsplit in Hrun, Hnd, Hsep, Hapart.
  rewrite fmap_app, fmap_cons in Hnd.
  apply NoDup_app in Hnd as (_ & Hpre & [Hpost _]%NoDup_cons).
  rewrite process_app in Hrun.
  destruct (Filter.process github_object (JObj m) pre) as [r1|] eqn:Hrun1;
    simpl in Hrun; [|done].
  apply process_lookup_matching in Hrun1 as (m1 & -> & Hm1).
  change (e :: post) with ([e] ++ post) in Hrun. rewrite process_app in Hrun.
  destruct (Filter.process github_object (JObj m1) [e]) as [r2|] eqn:Hrun2;
    simpl in Hrun; [|done].
  assert (m1 !! Filter.filtered e = Some (JObj sub)) as Hf1.
  { rewrite Hm1.
    - rewrite decide_False; [done|]. intros (e1 & He1 & Hn1 & Hf1)%Exists_exists.
      apply (Hpre (Filter.name e, Filter.filtered e)); [|by left].
      apply list_elem_of_fmap. exists e1. by rewrite Hn1, Hf1, Hn.
    - apply Forall_forall. intros e1 He1 _.
      apply Hsep; apply elem_of_app; [by left|right; by left]. }
  unfold Filter.process in Hrun2. cbn [for_each] in Hrun2.
  destruct (Filter.step github_object e (JObj m1)) as [r3|] eqn:Hstep;
    simpl in Hrun2; [|done].
  inversion Hrun2; subst r3. clear Hrun2.
  apply (step_hoists _ _ item _ sub v) in Hstep as (m2 & -> & Hk2);
    [|done|apply Hsep; apply elem_of_app; right; by left|done..].
  apply process_lookup_matching in Hrun as (m3 & [= <-] & Hm3).
  rewrite Hm3.
  - rewrite decide_False; [done|]. intros (e2 & He2 & Hn2 & Hf2)%Exists_exists.
    assert (unhoisted e (Filter.filtered e2)) as Hun
      by (apply Hsep; apply elem_of_app; right; [by left|by right]).
    unfold unhoisted in Hun. rewrite Forall_forall in Hun.
    by apply (Hun item Hitem).
  - apply Forall_forall. intros e2 He2 Hn2.
    rewrite Forall_forall in Hapart.
    assert (e ∈ pre ++ e :: post) as He' by (apply elem_of_app; right; by left).
    specialize (Hapart e He'). rewrite Forall_forall in Hapart.
    assert (e2 ∈ pre ++ e :: post) as He2' by (apply elem_of_app; right; by right).
    specialize (Hapart e2 He2'). rewrite Forall_forall in Hapart.
    apply Hapart; [congruence| |done].
    intros Hff. apply Hpost. apply list_elem_of_fmap. exists e2.
    by rewrite Hff, Hn, Hn2.
Qed.

Lemma filterMapper_hoists_witness :
  ∃ m', filterMapper "pull_requests"
          (JObj {[ "number" := JNum 4;
                   "head" := JObj {[ "label" := JStr "acme:fix"; "sha" := JStr "9f2" ]} ]})
        = Ok (JObj m')
        ∧ m' !! "head_label" = Some (JStr "acme:fix") ∧ m' !! "head" = None.
Proof.
  destruct (filterMapper_hoists "pull_requests"
              (Filter.Entry "pull_requests" "head" (Some ["label"])) "label"
              {[ "number" := JNum 4;
                 "head" := JObj {[ "label" := JStr "acme:fix"; "sha" := JStr "9f2" ]} ]}
              {[ "label" := JStr "acme:fix"; "sha" := JStr "9f2" ]}
              (JStr "acme:fix")
              (JObj {[ "number" := JNum 4; "head_label" := JStr "acme:fix" ]}))
    as (m' & Hr & Hk & Hf).
  - repeat first [apply list_elem_of_here | apply list_elem_of_further].
  - reflexivity.
  - by left.
  - reflexivity.
  - reflexivity.
  - vm_compute. reflexivity.
  - exists m'. split; [by rewrite <-Hr; vm_compute|done].
Defined.

(** *** Keys the filter step leaves alone *)

Lemma filterMapper_other_key
    (github_object : string) (m : gmap string json) (r : json) (k : string) :
  (∀ e, e ∈ Filter.mapping → Filter.name e = github_object →
        Filter.filtered e ≠ k ∧ unhoisted e k) →
  filterMapper github_object (JObj m) = Ok r →
  ∃ m', r = JObj m' ∧ m' !! k = m !! k.
Proof.
  intros Hk (m' & -> & Hm')%process_lookup_matching.
  exists m'. split; [done|]. rewrite Hm'.
  - rewrite decide_False; [done|]. intros (e & He & Hn & Hf)%Exists_exists.
    by destruct (Hk e He Hn).
  - apply Forall_forall. intros e He Hn. by apply Hk.
Qed.

(** X6.  A key that no entry naming the object filters or hoists to has
    in the result the value it had in the record, or is absent as before. *)
Theorem filterMapper_leaves_other_keys
    (github_object : string) (m : gmap string json) (r : json) (k : string) :
  (∀ e, e ∈ Filter.mapping → Filter.name e = github_object →
        Filter.filtered e ≠ k ∧ unhoisted e k) →
  filterMapper github_object (JObj m) = Ok r →
  ∃ m', r = JObj m' ∧ m' !! k = m !! k.
Proof. apply filterMapper_other_key. Qed.

Lemma filterMapper_leaves_other_keys_witness :
  ∃ m', filterMapper "commits" commit_abc = Ok (JObj m')
        ∧ m' !! "sha" = commit_abc_fields !! "sha".
Proof.
  destruct (filterMapper_leaves_other_keys "commits" commit_abc_fields
              (JObj {[ "sha" := JStr "abc"; "author_id" := JNum 7;
                       "committer" := JNull ]}) "sha")
    as (m' & Hr & Hk).
  - intros e He Hn.
    assert (Forall (fun e => Filter.filtered e ≠ "sha" ∧ unhoisted e "sha")
                   Filter.mapping) as Hall
      by (apply (bool_decide_unpack _); vm_compute; exact I).
    rewrite Forall_forall in Hall. by apply Hall.
  - vm_compute. reflexivity.
  - exists m'. split; [by rewrite <-Hr; vm_compute|done].
Defined.

(** The [name] of a record is never filtered and never hoisted to. *)
Lemma name_is_left_alone :
  Forall (fun e => Filter.filtered e ≠ "name" ∧ unhoisted e "name") Filter.mapping.
Proof. apply (bool_decide_unpack _). vm_compute. exact I. Qed.

Lemma filterMapper_repo_name github_object record r :
  filterMapper github_object record = Ok r → repo_name r = repo_name record.
Proof.
  intros Hrun. destruct record as [| | | | | |m].
  7: { apply filterMapper_other_key with (k := "name") in Hrun
         as (m' & -> & Hname).
       - unfold repo_name. by rewrite Hname.
       - intros e He _. pose proof name_is_left_alone as Hall.
         rewrite Forall_forall in Hall. by apply Hall. }
  all: apply process_not_dict in Hrun; [by subst|done].
Qed.

(** X7.  Filtering a listing changes no record's [name]: reading
    [repo['name']] off the filtered listing gives what it gives off the
    listing as fetched, name by name or the same exception.  The fan-out of
    [repository = "all"] therefore runs over the names the backend listed,
    whatever the object. *)
Theorem filtering_keeps_repository_names
    (github_object : string) (listing listing' : list json) :
  comprehension (filterMapper github_object) listing = Ok listing' →
  comprehension repo_name listing' = comprehension repo_name listing.
Proof.
  revert listing'. induction listing as [|record listing IH]; intros listing'; simpl.
  - by intros [= <-].
  - destruct (filterMapper github_object record) as [r|] eqn:Hr; simpl; [|done].
    destruct (comprehension (filterMapper github_object) listing) as [rs|];
      simpl; [|done].
    intros [= <-]. simpl.
    by rewrite (filterMapper_repo_name _ _ _ Hr), (IH rs).
Qed.

Lemma filtering_keeps_repository_names_witness :
  comprehension repo_name
    [ JObj {[ "name" := JStr "r1" ]}; JObj {[ "name" := JStr "r2"; "owner_id" := JNum 3 ]} ]
  = comprehension repo_name
      [ JObj {[ "name" := JStr "r1" ]};
        JObj {[ "name" := JStr "r2"; "owner" := JObj {[ "id" := JNum 3 ]} ]} ].
Proof.
  apply (filtering_keeps_repository_names "repositories").
  vm_compute. reflexivity.
Defined.

(** X8.  For issues, [filterMapper] deletes [labels] when it holds
    anything but null, adds no key, and changes nothing else; a record
    without [labels], or with [labels] null, comes back as it is. *)
Theorem filterMapper_issues_drops_labels (m : gmap string json) :
  filterMapper "issues" (JObj m) =
  Ok (JObj (match m !! "labels" with
            | None | Some JNull => m
            | Some _ => delete "labels" m
            end)).
Proof.
  unfold filterMapper.
  change Filter.mapping with
    ([ Filter.Entry "commits" "author" (Some ["id"]);
       Filter.Entry "commits" "committer" (Some ["id"]) ]
     ++ [ Filter.Entry "issues" "labels" None ]
     ++ [ Filter.Entry "issue_comments" "user" (Some ["id"]);
          Filter.Entry "commit_comments" "user" (Some ["id"]);
          Filter.Entry "repositories" "owner" (Some ["id"]);
          Filter.Entry "pull_requests" "assignee" (Some ["id"]);
          Filter.Entry "pull_requests" "milestone" (Some ["id"]);
          Filter.Entry "pull_requests" "head" (Some ["label"]);
          Filter.Entry "pull_requests" "base" (Some ["label"]);
          Filter.Entry "pull_requests" "user" (Some ["id"]) ]).
  rewrite process_app.
  rewrite process_without_rule by (repeat constructor; discriminate).
  cbn [mbind result_bind]. rewrite process_app.
  assert (Filter.process "issues" (JObj m) [Filter.Entry "issues" "labels" None]
          = Ok (JObj (match m !! "labels" with
                      | None | Some JNull => m
                      | Some _ => delete "labels" m
                      end))) as ->.
  { unfold Filter.process, for_each, Filter.step.
    rewrite decide_True by done. cbn [Filter.filtered Filter.retained Filter.truthy].
    destruct (m !! "labels") as [v|] eqn:Hl.
    - rewrite decide_True by done. cbn [mbind result_bind].
      unfold Filter.drop_filtered. rewrite Hl. by destruct v.
    - rewrite decide_False; [done|]. by intros []. }
  cbn [mbind result_bind].
  apply process_without_rule. repeat constructor; discriminate.
Qed.

(** ** paginate_data *)

Section PaginationFailures.

Context {World : Type}.
Variable hook_run :
  string -> string -> gmap string pval -> World -> result (list json) * World.
Variable str_of : json -> string.
Implicit Types s : state World.

Variables (self : operator) (g endpoint : string) (ws : nat → World).
Hypothesis Hper_page : payload self !! "per_page" = None.

Lemma fetch_more_fails (full : list (list json)) (e : exn) (w' : World) :
  ∀ (k : nat) response output s fuel,
    Forall (fun p => length p = 100%nat) full →
    length response = 100%nat →
    world s = ws k →
    (∀ (j : nat) p, full !! j = Some p →
       hook_run g endpoint (query self (Z.of_nat (k + j + 1))) (ws (k + j))
       = (Ok p, ws (S (k + j)))) →
    hook_run g endpoint (query self (Z.of_nat (k + length full + 1)))
             (ws (k + length full)) = (Raise e, w') →
    (length full < fuel)%nat →
    fetch_more hook_run fuel g endpoint (query self (Z.of_nat k)) response output s =
    Some (Raise e,
          State w' (requests s ++ page_requests self endpoint (S k) (S (length full)))
                (uploads s) (log s ++ page_logs (S k) (length full))).
Proof.
  induction full as [|p full IH];
    intros k response output s fuel Hfull Hresp Hw Hhook Hfail Hfuel.
  - destruct fuel as [|fuel]; [simpl in Hfuel; lia|].
    rewrite fetch_more_unfold, decide_True by done.
    erewrite bind_ok; [|unfold lift; by rewrite next_page_query].
    simpl in Hfail. rewrite Nat.add_0_r, Nat.add_1_r in Hfail.
    replace (Z.of_nat k + 1)%Z with (Z.of_nat (S k)) by lia.
    erewrite bind_raise; [|apply run_eq; by rewrite Hw, Hfail].
    unfold page_logs, page_requests. simpl. by rewrite (right_id_L [] (++)).
  - destruct fuel as [|fuel]; [simpl in Hfuel; lia|].
    apply Forall_cons in Hfull as [Hp Hfull].
    rewrite fetch_more_unfold, decide_True by done.
    erewrite bind_ok; [|unfold lift; by rewrite next_page_query].
    pose proof (Hhook 0%nat p eq_refl) as H0.
    rewrite !Nat.add_0_r, Nat.add_1_r in H0.
    replace (Z.of_nat k + 1)%Z with (Z.of_nat (S k)) by lia.
    erewrite bind_ok; [|apply run_eq; by rewrite Hw, H0].
    erewrite bind_ok; [|by apply log_retrieved_query].
    rewrite (IH (S k)); try done.
    + cbn [world requests uploads log length].
      f_equal. f_equal. f_equal; by rewrite <-(assoc_L (++)).
    + intros j q Hq. specialize (Hhook (S j) q Hq).
      by replace (S k + j)%nat with (k + S j)%nat by lia.
    + simpl in Hfail. by replace (S k + length full)%nat
        with (k + S (length full))%nat by lia.
    + simpl in Hfuel. lia.
Qed.

Hypothesis Hpage : payload self !! "page" = None.

Lemma paginate_data_fails (full : list (list json)) (e : exn) (w' : World) fuel s :
  Forall (fun p => length p = 100%nat) full →
  world s = ws 0 →
  (∀ (j : nat) p, full !! j = Some p →
     hook_run g endpoint (query self (Z.of_nat (j + 1))) (ws j) = (Ok p, ws (S j))) →
  hook_run g endpoint (query self (Z.of_nat (length full + 1))) (ws (length full))
  = (Raise e, w') →
  (length full ≤ fuel)%nat →
  paginate_data hook_run self fuel g endpoint s =
  Some (Raise e,
        State w' (requests s ++ page_requests self endpoint 1 (S (length full)))
              (uploads s) (log s ++ page_logs 1 (length full))).
Proof.
  intros Hfull Hw Hhook Hfail Hfuel. unfold paginate_data.
  rewrite first_query by done.
  destruct full as [|p full].
  - change (Z.of_nat (length [] + 1)) with 1%Z in Hfail. simpl in Hfail.
    erewrite bind_raise; [|apply run_eq; by rewrite Hw, Hfail].
    unfold page_logs, page_requests. simpl. by rewrite (right_id_L [] (++)).
  - apply Forall_cons in Hfull as [Hp Hfull].
    pose proof (Hhook 0%nat p eq_refl) as H0.
    change (Z.of_nat (0 + 1)) with 1%Z in H0.
    erewrite bind_ok; [|apply run_eq; by rewrite Hw, H0].
    erewrite bind_ok; [|by apply log_retrieved_query].
    erewrite bind_raise; cycle 1.
    { apply (fetch_more_fails full e w' 1); try done.
      intros j q Hq. apply (Hhook (S j) q Hq). }
    cbn [world requests uploads log length].
    f_equal. f_equal. f_equal; by rewrite <-(assoc_L (++)).
Qed.

Lemma fetch_more_never_ends fuel :
  (∀ q w, ∃ p w', hook_run g endpoint q w = (Ok p, w') ∧ length p = 100%nat) →
  ∀ (k : Z) response output s,
    length response = 100%nat →
    fetch_more hook_run fuel g endpoint (query self k) response output s = None.
Proof.
  intros Hfull. induction fuel as [|fuel IH]; intros k response output s Hresp;
    rewrite fetch_more_unfold, decide_True by done; [done|].
  erewrite bind_ok; [|unfold lift; by rewrite next_page_query].
  destruct (Hfull (query self (k + 1)) (world s)) as (p & w' & Hrun & Hp).
  erewrite bind_ok; [|by apply run_eq].
  erewrite bind_ok; [|by apply log_retrieved_query].
  by apply IH.
Qed.

Lemma paginate_data_never_ends fuel s :
  (∀ q w, ∃ p w', hook_run g endpoint q w = (Ok p, w') ∧ length p = 100%nat) →
  paginate_data hook_run self fuel g endpoint s = None.
Proof.
  intros Hfull. unfold paginate_data. rewrite first_query by done.
  destruct (Hfull (query self 1) (world s)) as (p & w' & Hrun & Hp).
  erewrite bind_ok; [|by apply run_eq].
  erewrite bind_ok; [|by apply log_retrieved_query].
  unfold mbind, M_bind. by rewrite fetch_more_never_ends.
Qed.

End PaginationFailures.


(** X9.  When the fetch capability returns some full pages and then
    fails, [paginate_data] raises that failure after the requests for these
    pages and the failed one: the records it had accumulated are lost, and
    [retrieve_data] turns the unit into the empty string. *)
Theorem later_failure_discards_fetched_pages
    (World : Type)
    (hook_run : string → string → gmap string pval → World
                → result (list json) * World)
    (str_of : json → string)
    (self : operator) (g endpoint : string) (ws : nat → World)
    (full : list (list json)) (e : exn) (w' : World) (fuel : nat)
    (s : state World) :
  payload self !! "per_page" = None →
  payload self !! "page" = None →
  Forall (fun p => length p = 100%nat) full →
  world s = ws 0%nat →
  (∀ (j : nat) p, full !! j = Some p →
     hook_run g endpoint (query self (Z.of_nat (j + 1))) (ws j) = (Ok p, ws (S j))) →
  hook_run g endpoint (query self (Z.of_nat (length full + 1))) (ws (length full))
  = (Raise e, w') →
  (length full ≤ fuel)%nat →
  let s' := State w' (requests s ++ page_requests self endpoint 1 (S (length full)))
                  (uploads s) (log s ++ page_logs 1 (length full)) in
  paginate_data hook_run self fuel g endpoint s = Some (Raise e, s')
  ∧ ∀ repo,
      methodMapper str_of self (github_object self) (JStr (github_org self)) repo
      = Ok endpoint →
      retrieve_data hook_run str_of self fuel g repo s = Some (Ok EmptyStr, noted s').
Proof.
  intros Hpp Hp Hfull Hw Hhook Hfail Hfuel s'.
  assert (paginate_data hook_run self fuel g endpoint s = Some (Raise e, s')) as Hrun
    by (by apply (paginate_data_fails hook_run self g endpoint ws)).
  split; [done|]. intros repo Hm. by rewrite retrieve_data_eq, Hm, Hrun.
Qed.

Lemma later_failure_discards_fetched_pages_witness :
  paginate_data script_run members_op 3 "github_default" "orgs/acme/members"
    (initial_state [Ok (records 0 100); Raise (HookError "502 Bad Gateway")])
  = Some (Raise (HookError "502 Bad Gateway"),
          State [] ([] ++ page_requests members_op "orgs/acme/members" 1 2) []
                ([] ++ page_logs 1 1)).
Proof.
  refine (proj1 (later_failure_discards_fetched_pages _ script_run str_none
            members_op "github_default" "orgs/acme/members"
            (fun k => drop k [Ok (records 0 100); Raise (HookError "502 Bad Gateway")])
            [records 0 100] (HookError "502 Bad Gateway") [] 3
            (initial_state [Ok (records 0 100); Raise (HookError "502 Bad Gateway")])
            _ _ _ _ _ _ _)).
  - reflexivity.
  - reflexivity.
  - repeat constructor.
  - reflexivity.
  - intros [|j] p [= <-]. reflexivity.
  - reflexivity.
  - simpl. lia.
Defined.

(** X10.  The loop has no bound on the number of pages: against a fetch
    capability that answers every request with a hundred records,
    [paginate_data] does not return, whatever the fuel. *)
Theorem full_pages_never_end
    (World : Type)
    (hook_run : string → string → gmap string pval → World
                → result (list json) * World)
    (self : operator) (g endpoint : string) (fuel : nat) (s : state World) :
  payload self !! "per_page" = None →
  payload self !! "page" = None →
  (∀ q w, ∃ p w', hook_run g endpoint q w = (Ok p, w') ∧ length p = 100%nat) →
  paginate_data hook_run self fuel g endpoint s = None.
Proof. intros. by apply paginate_data_never_ends. Qed.

Lemma full_pages_never_end_witness :
  paginate_data always_full_run members_op 7 "github_default" "orgs/acme/members"
                (initial_state ()) = None.
Proof.
  apply full_pages_never_end; [reflexivity|reflexivity|].
  intros q w. by exists (records 0 100), w.
Defined.

(** *** Parameters given as text *)

(** X11.  When the caller gives [page] as text and the first page comes
    back full, [final_payload['page'] += 1] raises [TypeError]: one request
    has been sent and the records are lost. *)
Theorem text_page_raises_on_a_full_page
    (World : Type)
    (hook_run : string → string → gmap string pval → World
                → result (list json) * World)
    (self : operator) (fuel : nat) (g endpoint p : string)
    (s : state World) (page : list json) (w : World) :
  payload self !! "page" = Some (PStr p) →
  payload self !! "per_page" = None →
  hook_run g endpoint (payload self ∪ initial_payload) (world s) = (Ok page, w) →
  length page = 100%nat →
  paginate_data hook_run self (S fuel) g endpoint s =
  Some (Raise TypeError,
        State w (requests s ++ [(endpoint, payload self ∪ initial_payload)])
              (uploads s) (log s ++ [Retrieved (PStr (str_repeat p 100))])).
Proof.
  intros Hp Hpp Hrun Hlen. unfold paginate_data. rewrite merge_payload_union.
  erewrite bind_ok; [|by apply run_eq].
  assert (retrieved_count (payload self ∪ initial_payload)
          = Ok (PStr (str_repeat p 100))) as Hcount.
  { unfold retrieved_count, getitem.
    rewrite (lookup_union_r _ _ "per_page") by done.
    rewrite (lookup_union_Some_l _ _ "page" _ Hp).
    replace (initial_payload !! "per_page") with (Some (PInt 100))
      by (vm_compute; reflexivity).
    reflexivity. }
  erewrite bind_ok; cycle 1.
  { unfold log_retrieved. erewrite bind_ok; [|unfold lift; by rewrite Hcount]. done. }
  erewrite bind_raise; [done|].
  rewrite fetch_more_unfold, decide_True by done.
  erewrite bind_raise; [done|]. unfold lift, next_page, getitem.
  by rewrite (lookup_union_Some_l _ _ "page" _ Hp).
Qed.

Lemma text_page_raises_on_a_full_page_witness :
  paginate_data script_run text_page_op 1 "github_default" "orgs/acme/members"
                (initial_state [Ok (records 0 100); Ok (records 100 3)])
  = Some (Raise TypeError,
          State [Ok (records 100 3)]
                ([] ++ [("orgs/acme/members", payload text_page_op ∪ initial_payload)])
                [] ([] ++ [Retrieved (PStr (str_repeat "2" 100))])).
Proof.
  apply (text_page_raises_on_a_full_page _ script_run text_page_op 0
           "github_default" "orgs/acme/members" "2"
           (initial_state [Ok (records 0 100); Ok (records 100 3)])
           (records 0 100) [Ok (records 100 3)]); reflexivity.
Defined.

(** X12.  When the caller gives both [page] and [per_page] as text, the
    'Retrieved' log line multiplies two strings and raises [TypeError]
    right after the first request, whatever that request returned. *)
Theorem text_page_and_per_page_raise_at_once
    (World : Type)
    (hook_run : string → string → gmap string pval → World
                → result (list json) * World)
    (self : operator) (fuel : nat) (g endpoint p n : string)
    (s : state World) (page : list json) (w : World) :
  payload self !! "page" = Some (PStr p) →
  payload self !! "per_page" = Some (PStr n) →
  hook_run g endpoint (payload self ∪ initial_payload) (world s) = (Ok page, w) →
  paginate_data hook_run self fuel g endpoint s =
  Some (Raise TypeError,
        State w (requests s ++ [(endpoint, payload self ∪ initial_payload)])
              (uploads s) (log s)).
Proof.
  intros Hp Hpp Hrun. unfold paginate_data. rewrite merge_payload_union.
  erewrite bind_ok; [|by apply run_eq].
  erewrite bind_raise; [done|]. unfold log_retrieved.
  erewrite bind_raise; [done|]. unfold lift, retrieved_count, getitem.
  rewrite (lookup_union_Some_l _ _ "per_page" _ Hpp).
  by rewrite (lookup_union_Some_l _ _ "page" _ Hp).
Qed.

Lemma text_page_and_per_page_raise_at_once_witness :
  paginate_data script_run text_params_op 4 "github_default" "orgs/acme/members"
                (initial_state [Ok (records 0 3)])
  = Some (Raise TypeError,
          State []
                ([] ++ [("orgs/acme/members", payload text_params_op ∪ initial_payload)])
                [] []).
Proof.
  apply (text_page_and_per_page_raise_at_once _ script_run text_params_op 4
           "github_default" "orgs/acme/members" "2" "50"
           (initial_state [Ok (records 0 3)]) (records 0 3) []); reflexivity.
Defined.

(** X13.  The loop tests the length of a page against the literal 100,
    not against [per_page]: with a caller-supplied [per_page] below 100, a
    backend that honours it is asked for one page only, and the output is
    the filter step applied to the first [per_page] records, however many
    the backend holds. *)
Theorem small_per_page_stops_after_one_page
    (self : operator) (g endpoint : string) (dataset : list json) (n : Z)
    (fuel : nat) (s : state unit) :
  payload self !! "per_page" = Some (PInt n) →
  payload self !! "page" = None →
  (0 ≤ n < 100)%Z →
  paginate_data (paged_run dataset) self fuel g endpoint s =
  Some (comprehension (filterMapper (github_object self)) (take (Z.to_nat n) dataset),
        State () (requests s ++ [(endpoint, payload self ∪ initial_payload)])
              (uploads s) (log s ++ [Retrieved (PInt (n * 1))])).
Proof.
  intros Hpp Hp Hn. unfold paginate_data. rewrite merge_payload_union.
  assert ((payload self ∪ initial_payload) !! "per_page" = Some (PInt n)) as Hq1
    by (by apply lookup_union_Some_l).
  assert ((payload self ∪ initial_payload) !! "page" = Some (PInt 1)) as Hq2
    by (by rewrite lookup_union_r).
  erewrite bind_ok; cycle 1.
  { apply run_eq. unfold paged_run. rewrite Hq1, Hq2. reflexivity. }
  erewrite bind_ok; cycle 1.
  { unfold log_retrieved. erewrite bind_ok; [done|].
    unfold lift, retrieved_count, getitem. by rewrite Hq1, Hq2. }
  erewrite bind_ok; cycle 1.
  { rewrite fetch_more_unfold, decide_False; [done|].
    rewrite length_take. lia. }
  unfold lift. cbn [world requests uploads log].
  replace (Z.to_nat (n * (1 - 1))) with 0%nat by lia.
  destruct s as [[] ? ? ?]. reflexivity.
Qed.

Lemma small_per_page_stops_after_one_page_witness :
  paginate_data (paged_run (records 0 250)) fifty_op 5 "github_default"
                "orgs/acme/members" (initial_state ())
  = Some (comprehension (filterMapper "members") (take 50 (records 0 250)),
          State () ([] ++ [("orgs/acme/members", payload fifty_op ∪ initial_payload)])
                [] ([] ++ [Retrieved (PInt (50 * 1))])).
Proof.
  apply (small_per_page_stops_after_one_page fifty_op "github_default"
           "orgs/acme/members" (records 0 250) 50 5 (initial_state ()));
    [reflexivity|reflexivity|lia].
Defined.

(** *** What every request carries *)

Lemma next_page_other q q' k :
  next_page q = Ok q' → k ≠ "page" → q' !! k = q !! k.
Proof.
  unfold next_page. destruct (getitem q "page") as [v|]; [|done]. simpl.
  destruct (py_succ v); [|done]. simpl. intros [= <-] Hk.
  by rewrite lookup_insert_ne.
Qed.

Lemma consecutive_tail q qs : consecutive (q :: qs) → consecutive qs.
Proof. intros H i q1 q2 H1 H2. by apply (H (S i)). Qed.

Lemma consecutive_others q0 qs :
  consecutive (q0 :: qs) →
  Forall (fun q => ∀ k, k ≠ "page" → q !! k = q0 !! k) qs.
Proof.
  revert q0. induction qs as [|q qs IH]; intros q0 Hqs; [done|].
  pose proof (Hqs 0%nat q0 q eq_refl eq_refl) as Hstep.
  apply Forall_cons. split.
  - intros k Hk. by eapply next_page_other.
  - eapply Forall_impl; [apply IH; by eapply consecutive_tail|].
    intros q1 Hq1 k Hk. rewrite (Hq1 k Hk). by eapply next_page_other.
Qed.

(** X14.  Every request of one [paginate_data] call goes to the same
    endpoint, there is at least one, and each carries every caller-supplied
    parameter other than [page] with the caller's value. *)
Theorem every_request_carries_the_extras
    (World : Type)
    (hook_run : string → string → gmap string pval → World
                → result (list json) * World)
    (self : operator) (fuel : nat) (g endpoint : string)
    (s : state World) (r : result (list json)) (s' : state World) :
  paginate_data hook_run self fuel g endpoint s = Some (r, s') →
  ∃ qs, qs ≠ []
        ∧ requests s' = requests s ++ ((fun q => (endpoint, q)) <$> qs)
        ∧ Forall (fun q => ∀ k v, k ≠ "page" → payload self !! k = Some v →
                                  q !! k = Some v) qs.
Proof.
  intros (qs & Hreq & Hqs)%paginate_data_requests.
  exists ((payload self ∪ initial_payload) :: qs). split; [done|]. split; [done|].
  apply Forall_cons. split.
  - intros k v _ Hk. by apply lookup_union_Some_l.
  - eapply Forall_impl; [by apply consecutive_others|].
    intros q Hq k v Hk Hv. rewrite (Hq k Hk). by apply lookup_union_Some_l.
Qed.

Lemma every_request_carries_the_extras_witness :
  ∃ qs : list (gmap string pval),
    qs ≠ []
    ∧ [("orgs/acme/members", payload fifty_op ∪ initial_payload)]
      = [] ++ ((fun q => ("orgs/acme/members", q)) <$> qs)
    ∧ Forall (fun q => ∀ k v, k ≠ "page" → payload fifty_op !! k = Some v →
                              q !! k = Some v) qs.
Proof.
  apply (every_request_carries_the_extras _ (paged_run (records 0 250)) fifty_op 5
           "github_default" "orgs/acme/members" (initial_state ())
           (Ok (take 50 (records 0 250)))
           (State () [("orgs/acme/members", payload fifty_op ∪ initial_payload)] []
                  [Retrieved (PInt 50)])).
  vm_compute. reflexivity.
Defined.

(** ** methodMapper *)

(** X15.  [methodMapper] resolves an object exactly when it is one of the
    eight supported names, in that spelling, whatever the organisation and
    the repository. *)
Theorem methodMapper_resolves_iff_supported
    (str_of : json → string) (self : operator) (github_object : string)
    (org repo : json) :
  (∃ endpoint, methodMapper str_of self github_object org repo = Ok endpoint)
  ↔ github_object ∈ supported.
Proof.
  split.
  - intros [endpoint Hm]. destruct (decide (github_object ∈ supported)) as [|Hobj];
      [done|].
    by rewrite methodMapper_unsupported in Hm.
  - intros Hobj. unfold supported in Hobj.
    repeat (apply elem_of_cons in Hobj as [->|Hobj]; [by eexists|]).
    by apply elem_of_nil in Hobj.
Qed.

Lemma methodMapper_resolves_iff_supported_witness :
  ∃ endpoint, methodMapper str_none members_op "issue_comments" (JStr "acme")
                           (JStr "r1") = Ok endpoint.
Proof.
  apply (proj2 (methodMapper_resolves_iff_supported str_none members_op
                  "issue_comments" (JStr "acme") (JStr "r1"))).
  by apply (bool_decide_unpack _).
Defined.

(** ** execute *)

Section Runs.

Context {World : Type}.
Variable hook_run :
  string -> string -> gmap string pval -> World -> result (list json) * World.
Variable sink_put : upload -> World -> result unit * World.
Variable dumps_flatten : json -> result string.
Variable str_of : json -> string.
Implicit Types s : state World.

Lemma retrieve_data_with_repo self r fuel g repo :
  retrieve_data hook_run str_of (with_repo self r) fuel g repo
  = retrieve_data hook_run str_of self fuel g repo.
Proof. reflexivity. Qed.

Lemma execute_with_repo self r fuel s :
  execute hook_run sink_put dumps_flatten str_of (with_repo self r) fuel s =
  (output ← gather hook_run str_of (with_repo self r) fuel;
   output_manager sink_put dumps_flatten self output) s.
Proof. reflexivity. Qed.

(** The unit of a scope-insensitive object is the same whatever the
    repository. *)
Lemma retrieve_data_scope_free self fuel g repo repo' s :
  github_object self ∈ ["members"; "organizations"; "repositories"] →
  retrieve_data hook_run str_of self fuel g repo s
  = retrieve_data hook_run str_of self fuel g repo' s.
Proof.
  intros Hobj. rewrite !retrieve_data_eq.
  assert (methodMapper str_of self (github_object self) (JStr (github_org self)) repo
          = methodMapper str_of self (github_object self) (JStr (github_org self)) repo')
    as ->; [|done].
  repeat (apply elem_of_cons in Hobj as [->|Hobj]; [reflexivity|]).
  by apply elem_of_nil in Hobj.
Qed.

Lemma gather_scope_free self r fuel s :
  github_object self ∈ ["members"; "organizations"; "repositories"] →
  gather hook_run str_of (with_repo self r) fuel s
  = retrieve_data hook_run str_of self fuel (github_conn_id self) JNull s.
Proof.
  intros Hobj. unfold gather.
  rewrite decide_False by (intros Hn; by apply Hn).
  rewrite retrieve_data_with_repo. by apply retrieve_data_scope_free.
Qed.

Lemma gather_never_raises self fuel s e s' :
  is_all (github_repo self) = false →
  gather hook_run str_of self fuel s ≠ Some (Raise e, s').
Proof.
  intros Hall. unfold gather. rewrite Hall.
  destruct (decide _); [|apply retrieve_data_never_raises].
  destruct (github_repo self) as [| | | | |repos|];
    try apply retrieve_data_never_raises.
  unfold fmap, M_fmap, mbind, M_bind.
  destruct (extend_each _ _ _ _ _ _ _ s) as [[[rows|e1] s1]|] eqn:Hrun; try done.
  by apply extend_each_never_raises in Hrun.
Qed.

(** Nothing before [output_manager] uploads. *)
Lemma retrieve_data_uploads self fuel g repo s r s' :
  retrieve_data hook_run str_of self fuel g repo s = Some (r, s') →
  uploads s' = uploads s.
Proof.
  rewrite retrieve_data_eq. destruct (methodMapper _ _ _ _ _); [|by intros [= _ <-]].
  destruct (paginate_data _ _ _ _ _ s) as [[[rows|] s1]|] eqn:Hp; [| |done].
  - intros [= _ <-]. by eapply paginate_data_uploads.
  - intros [= _ <-]. simpl. by eapply paginate_data_uploads.
Qed.

Lemma extend_each_uploads self fuel g repos :
  ∀ output s r s',
    extend_each hook_run str_of self fuel g repos output s = Some (r, s') →
    uploads s' = uploads s.
Proof.
  induction repos as [|repo repos IH]; intros output s r s'; simpl.
  - by intros [= _ <-].
  - intros [(e & H & _)|(a & s1 & Hunit & H)]%bind_inv.
    + by eapply retrieve_data_uploads.
    + apply retrieve_data_uploads in Hunit. apply IH in H. congruence.
Qed.

Lemma gather_uploads self fuel s r s' :
  gather hook_run str_of self fuel s = Some (r, s') → uploads s' = uploads s.
Proof.
  unfold gather. destruct (decide _); [|apply retrieve_data_uploads].
  destruct (is_all (github_repo self)).
  - rewrite bind_lift, methodMapper_repositories.
    intros [(e & H & _)|(listing & s1 & Hlist & H)]%bind_inv.
    { by eapply paginate_data_uploads. }
    apply paginate_data_uploads in Hlist. rewrite bind_lift in H.
    destruct (comprehension repo_name listing) as [repos|]; [|by inversion H; subst].
    unfold fmap, M_fmap in H.
    apply bind_inv in H as [(e & H & _)|(a & s2 & Hrun & H)].
    + apply extend_each_uploads in H. congruence.
    + apply extend_each_uploads in Hrun. inversion H; subst. congruence.
  - destruct (github_repo self) as [| | | | |repos|];
      try apply retrieve_data_uploads.
    unfold fmap, M_fmap.
    intros [(e & H & _)|(a & s2 & Hrun & H)]%bind_inv.
    + by eapply extend_each_uploads.
    + apply extend_each_uploads in Hrun. inversion H; subst. congruence.
Qed.

Lemma store_uploads self text s r s' :
  store sink_put self text s = Some (r, s') →
  uploads s' = uploads s
  ∨ ∃ k what, uploads s' = uploads s ++ [Upload k (dest_conn_id self) (bucket self)
                                                (key self) what]
              ∧ lower (destination self) = sink_name k.
Proof.
  unfold store, put.
  destruct (decide (lower (destination self) = "s3")) as [Hs3|].
  { destruct (sink_put _ _). intros [= _ <-]. right. by exists S3, (StringData text). }
  destruct (decide (lower (destination self) = "gcs")) as [Hgcs|].
  { destruct (sink_put _ _). intros [= _ <-]. right. by exists GCS, (Filename text). }
  intros [= _ <-]. by left.
Qed.

(** The storage step sends no request and logs nothing. *)
Lemma store_quiet self text s r s' :
  store sink_put self text s = Some (r, s') →
  requests s' = requests s ∧ log s' = log s.
Proof.
  unfold store, put.
  repeat (destruct (decide _); [destruct (sink_put _ _); by intros [= _ <-]|]).
  by intros [= _ <-].
Qed.

Lemma output_manager_uploads self output s r s' :
  output_manager sink_put dumps_flatten self output s = Some (r, s') →
  uploads s' = uploads s
  ∨ ∃ k what, uploads s' = uploads s ++ [Upload k (dest_conn_id self) (bucket self)
                                                (key self) what]
              ∧ lower (destination self) = sink_name k.
Proof.
  unfold output_manager. rewrite bind_lift.
  destruct (comprehension dumps_flatten (items output)) as [lines|].
  - apply store_uploads.
  - intros [= _ <-]. by left.
Qed.

Lemma output_manager_quiet self output s r s' :
  output_manager sink_put dumps_flatten self output s = Some (r, s') →
  requests s' = requests s ∧ log s' = log s.
Proof.
  unfold output_manager. rewrite bind_lift.
  destruct (comprehension dumps_flatten (items output)) as [lines|].
  - apply store_quiet.
  - by intros [= _ <-].
Qed.

(** Every step appends to the requests made so far. *)
Lemma retrieve_data_requests self fuel g repo s r s' :
  retrieve_data hook_run str_of self fuel g repo s = Some (r, s') →
  ∃ more, requests s' = requests s ++ more.
Proof.
  rewrite retrieve_data_eq. destruct (methodMapper _ _ _ _ _).
  - destruct (paginate_data _ _ _ _ _ s) as [[[rows|] s1]|] eqn:Hp; [| |done].
    + intros [= _ <-]. apply paginate_data_requests in Hp as (qs & -> & _).
      by eexists.
    + intros [= _ <-]. apply paginate_data_requests in Hp as (qs & Hreq & _).
      simpl. rewrite Hreq. by eexists.
  - intros [= _ <-]. exists []. simpl. by rewrite (right_id_L [] (++)).
Qed.

Lemma extend_each_requests self fuel g repos :
  ∀ output s r s',
    extend_each hook_run str_of self fuel g repos output s = Some (r, s') →
    ∃ more, requests s' = requests s ++ more.
Proof.
  induction repos as [|repo repos IH]; intros output s r s'; simpl.
  - intros [= _ <-]. exists []. by rewrite (right_id_L [] (++)).
  - intros [(e & H & _)|(a & s1 & Hunit & H)]%bind_inv.
    + by eapply retrieve_data_requests.
    + apply retrieve_data_requests in Hunit as (more1 & Hreq1).
      apply IH in H as (more2 & ->). rewrite Hreq1, <-(assoc_L (++)). by eexists.
Qed.

Lemma gather_all_requests self fuel s r s' :
  github_object self ∉ ["members"; "organizations"; "repositories"] →
  is_all (github_repo self) = true →
  gather hook_run str_of self fuel s = Some (r, s') →
  ∃ more,
    requests s' =
    requests s ++ (("orgs/" ++ github_org self ++ "/repos")%string,
                   payload self ∪ initial_payload) :: more.
Proof.
  intros Hobj Hall. rewrite gather_all by done.
  intros [(e & H & _)|(listing & s1 & Hlist & H)]%bind_inv.
  { apply paginate_data_requests in H as (qs & -> & _). by eexists. }
  apply paginate_data_requests in Hlist as (qs & Hreq & _).
  rewrite bind_lift in H.
  destruct (comprehension repo_name listing) as [repos|].
  - unfold fmap, M_fmap in H.
    apply bind_inv in H as [(e & H & _)|(a & s2 & Hrun & H)].
    + apply extend_each_requests in H as (more & ->). rewrite Hreq. simpl.
      rewrite <-(assoc_L (++)). by eexists.
    + apply extend_each_requests in Hrun as (more & Hreq2).
      inversion H; subst. rewrite Hreq2, Hreq. simpl.
      rewrite <-(assoc_L (++)). by eexists.
  - inversion H; subst. rewrite Hreq. by eexists.
Qed.

End Runs.

(** X16.  A run with no repository ([github_repo = None]) does what a run
    on a repository called [None] does: [str.format] writes [None] into the
    path, and nothing checks that a repository-scoped object has one. *)
Theorem missing_repository_reads_as_None
    (World : Type)
    (hook_run : string → string → gmap string pval → World
                → result (list json) * World)
    (sink_put : upload → World → result unit * World)
    (dumps_flatten : json → result string) (str_of : json → string)
    (self : operator) (fuel : nat) (s : state World) :
  execute hook_run sink_put dumps_flatten str_of (with_repo self JNull) fuel s
  = execute hook_run sink_put dumps_flatten str_of (with_repo self (JStr "None")) fuel s.
Proof.
  rewrite !execute_with_repo.
  assert (gather hook_run str_of (with_repo self JNull) fuel s
          = gather hook_run str_of (with_repo self (JStr "None")) fuel s) as Hg.
  { unfold gather. cbn [github_object github_repo with_repo github_conn_id is_all].
    destruct (decide _); [|by rewrite !retrieve_data_with_repo, !retrieve_data_eq].
    rewrite bool_decide_eq_false_2 by discriminate.
    by rewrite !retrieve_data_with_repo, !retrieve_data_eq. }
  unfold mbind, M_bind. by rewrite Hg.
Qed.

(** X17.  For members, organizations and repositories the run does not
    depend on [github_repo]: whatever it is, ["all"] and a list included,
    there is one unit, and its endpoint has no repository in it. *)
Theorem scope_free_objects_ignore_the_repository
    (World : Type)
    (hook_run : string → string → gmap string pval → World
                → result (list json) * World)
    (sink_put : upload → World → result unit * World)
    (dumps_flatten : json → result string) (str_of : json → string)
    (self : operator) (r1 r2 : json) (fuel : nat) (s : state World) :
  github_object self ∈ ["members"; "organizations"; "repositories"] →
  execute hook_run sink_put dumps_flatten str_of (with_repo self r1) fuel s
  = execute hook_run sink_put dumps_flatten str_of (with_repo self r2) fuel s.
Proof.
  intros Hobj. rewrite !execute_with_repo. unfold mbind, M_bind.
  by rewrite !gather_scope_free.
Qed.

Lemma scope_free_objects_ignore_the_repository_witness :
  execute (table_run acme) sink_ok dumps_id str_none
          (with_repo members_op (JStr "all")) 3 (initial_state ())
  = execute (table_run acme) sink_ok dumps_id str_none
            (with_repo members_op (JArr [JStr "r1"; JStr "r2"])) 3 (initial_state ()).
Proof.
  apply scope_free_objects_ignore_the_repository.
  by apply (bool_decide_unpack _).
Defined.

(** X18.  When [repository] is not ["all"], [execute] can fail only in
    [output_manager]: the extraction returned, and the exception is that of
    serialising a record or of the storage hook. *)
Theorem failure_without_listing_is_in_the_output
    (World : Type)
    (hook_run : string → string → gmap string pval → World
                → result (list json) * World)
    (sink_put : upload → World → result unit * World)
    (dumps_flatten : json → result string) (str_of : json → string)
    (self : operator) (fuel : nat) (s : state World) (e : exn) (s' : state World) :
  is_all (github_repo self) = false →
  execute hook_run sink_put dumps_flatten str_of self fuel s = Some (Raise e, s') →
  ∃ output s1,
    gather hook_run str_of self fuel s = Some (Ok output, s1)
    ∧ output_manager sink_put dumps_flatten self output s1 = Some (Raise e, s').
Proof.
  intros Hall [(e1 & H & _)|(output & s1 & Hg & H)]%bind_inv.
  - by apply gather_never_raises in H.
  - by exists output, s1.
Qed.

Lemma failure_without_listing_is_in_the_output_witness :
  ∃ output s1,
    gather (table_run {[ "orgs/acme/members" := [JNum 1] ]}) str_none members_op 3
           (initial_state ())
    = Some (Ok output, s1)
    ∧ output_manager sink_ok dumps_id members_op output s1
      = Some (Raise TypeError,
              State () [("orgs/acme/members", query members_op 1)] []
                    [Retrieved (PInt 100)]).
Proof.
  apply (failure_without_listing_is_in_the_output unit
           (table_run {[ "orgs/acme/members" := [JNum 1] ]}) sink_ok dumps_id
           str_none members_op 3 (initial_state ()) TypeError
           (State () [("orgs/acme/members", query members_op 1)] []
                  [Retrieved (PInt 100)])); vm_compute; reflexivity.
Defined.

(** X19.  A run calls a storage hook at most once, with the operator's
    connection, bucket and key, and only when the lower-cased destination
    is s3 or gcs.  A run whose extraction raises ends there, with that
    exception and nothing uploaded.  When the extraction returns, nothing
    has been uploaded yet, and what follows sends no request and logs
    nothing.  A run whose destination is any other word uploads nothing. *)
Theorem at_most_one_upload
    (World : Type)
    (hook_run : string → string → gmap string pval → World
                → result (list json) * World)
    (sink_put : upload → World → result unit * World)
    (dumps_flatten : json → result string) (str_of : json → string)
    (self : operator) (fuel : nat) (s : state World) (r : result unit)
    (s' : state World) :
  execute hook_run sink_put dumps_flatten str_of self fuel s = Some (r, s') →
  (uploads s' = uploads s
   ∨ ∃ k what, uploads s' = uploads s ++ [Upload k (dest_conn_id self) (bucket self)
                                                 (key self) what]
               ∧ lower (destination self) = sink_name k)
  ∧ (∀ e s1, gather hook_run str_of self fuel s = Some (Raise e, s1) →
             r = Raise e ∧ s' = s1 ∧ uploads s' = uploads s)
  ∧ (∀ output s1, gather hook_run str_of self fuel s = Some (Ok output, s1) →
                  uploads s1 = uploads s
                  ∧ requests s' = requests s1 ∧ log s' = log s1)
  ∧ (lower (destination self) ≠ "s3" → lower (destination self) ≠ "gcs" →
     uploads s' = uploads s).
Proof.
  intros Hrun. pose proof Hrun as H.
  apply bind_inv in H as [(e & Hg & ->)|(output & s1 & Hg & H)].
  - pose proof (gather_uploads _ _ _ _ _ _ _ Hg) as Hup.
    repeat split; try (intros; congruence). by left.
  - pose proof (gather_uploads _ _ _ _ _ _ _ Hg) as Hup.
    split; [|split; [|split]].
    + rewrite <-Hup. by eapply output_manager_uploads.
    + intros e s2 Hg'. congruence.
    + intros output' s2 Hg'. assert (s2 = s1) as -> by congruence.
      split; [done|]. by eapply output_manager_quiet.
    + intros Hs3 Hgcs. rewrite <-Hup.
      apply output_manager_uploads in H as [?|(k & what & _ & Hk)]; [done|].
      by destruct k.
Qed.

Lemma at_most_one_upload_witness :
  uploads (State () [("orgs/acme/members", query members_op 1)]
                 [Upload S3 "aws_default" "lake" "github/out.json" (StringData "{}")]
                 [Retrieved (PInt 100)])
  = uploads (initial_state ())
  ∨ ∃ k what,
      uploads (State () [("orgs/acme/members", query members_op 1)]
                     [Upload S3 "aws_default" "lake" "github/out.json" (StringData "{}")]
                     [Retrieved (PInt 100)])
      = uploads (initial_state ())
        ++ [Upload k (dest_conn_id members_op) (bucket members_op) (key members_op) what]
      ∧ lower (destination members_op) = sink_name k.
Proof.
  apply (at_most_one_upload unit
           (table_run {[ "orgs/acme/members" := [JObj {[ "login" := JStr "a" ]}] ]})
           sink_ok dumps_id str_none members_op 3 (initial_state ()) (Ok ())).
  vm_compute. reflexivity.
Defined.

(** X20.  With [repository = "all"], the first request of the run is the
    listing of the organisation's repositories, and it carries the
    caller's extra parameters like every other request. *)
Theorem listing_request_carries_the_payload
    (World : Type)
    (hook_run : string → string → gmap string pval → World
                → result (list json) * World)
    (str_of : json → string)
    (self : operator) (fuel : nat) (s : state World) (r : result fetched)
    (s' : state World) :
  github_object self ∉ ["members"; "organizations"; "repositories"] →
  is_all (github_repo self) = true →
  gather hook_run str_of self fuel s = Some (r, s') →
  ∃ more,
    requests s' =
    requests s ++ (("orgs/" ++ github_org self ++ "/repos")%string,
                   payload self ∪ initial_payload) :: more.
Proof. intros. by eapply gather_all_requests. Qed.

Lemma listing_request_carries_the_payload_witness :
  ∃ more,
    [ ("orgs/acme/repos", payload since_op ∪ initial_payload) ]
    = [] ++ ("orgs/acme/repos", payload since_op ∪ initial_payload) :: more.
Proof.
  apply (listing_request_carries_the_payload unit (table_run ∅) str_none since_op 3
           (initial_state ()) (Raise (HookError "503 Service Unavailable"))
           (State () [("orgs/acme/repos", payload since_op ∪ initial_payload)] [] [])).
  - by apply (bool_decide_unpack _).
  - reflexivity.
  - vm_compute. reflexivity.
Defined.
